(** * icnsutil command line: a shallow embedding of [icnsutil/cli.py]

    The command functions [cli_compose], [cli_update] and [cli_convert] of
    [cli.py] and the generator [enum_with_stdin] are embedded as computations
    in a state-and-exception monad over a [World]: the file store, the
    standard input, the standard error stream and the list of paths opened
    for writing.  [cli_print] and [cli_verify] run on a [Console], the world
    with the standard output; [cli_extract] takes [os.makedirs] and
    [IcnsFile.export] as they come.  The argument parser of [main] is not
    embedded.

    The classes [IcnsFile], [IcnsType] and [ArgbImage] live in other modules
    of the package.  The command functions are embedded over an interface
    ([IcnsFileAPI], [ArgbImageAPI]) that lists the methods [cli.py] calls, so
    that what is proved about the control flow of a command holds for every
    library behind it.  The modules [SpecIcns] and [SpecImage] give the
    model of those methods that the design document describes; it is used
    where a property depends on what the library does. *)

From Stdlib Require Import ZArith Strings.Ascii Strings.String Strings.Byte.
From stdpp Require Import base gmap strings list pretty.

Local Open Scope Z_scope.

(** ** Python strings *)

(** A Python [str] is modelled as a [string]; its characters are the code
    points below 256. *)

(** The double quote character, used by the messages. *)
Definition dquote : string := String (ascii_of_nat 34) EmptyString.

(** ['{}'.format(s)] surrounded by double quotes. *)
Definition quoted (s : string) : string := dquote +:+ s +:+ dquote.

(** Truth value of a [str]: the empty string is false. *)
Definition truthy (s : string) : bool :=
  match s with EmptyString => false | String _ _ => true end.

(** Truth value of an optional [str] ([None] or a string). *)
Definition truthy_opt (o : option string) : bool :=
  match o with None => false | Some s => truthy s end.

(** [a or b] for an optional string [a] and a string [b]. *)
Definition str_or (a : option string) (b : string) : string :=
  match a with
  | Some s => if truthy s then s else b
  | None => b
  end.

(** [a or []] for an optional list. *)
Definition list_or_nil {A} (a : option (list A)) : list A :=
  match a with
  | Some (x :: l) => x :: l
  | _ => []
  end.

(** [c in s] for a one-character [c]. *)
Fixpoint char_in (c : ascii) (s : string) : bool :=
  match s with
  | EmptyString => false
  | String a s' => if Ascii.eqb a c then true else char_in c s'
  end.

(** [s.split(c)] for a one-character separator [c]. *)
Fixpoint split (c : ascii) (s : string) : list string :=
  match s with
  | EmptyString => [EmptyString]
  | String a s' =>
      if Ascii.eqb a c then EmptyString :: split c s'
      else match split c s' with
           | p :: ps => String a p :: ps
           | [] => [String a EmptyString]
           end
  end.

(** [str.isspace] on one character, for code points below 256. *)
Definition isspace (a : ascii) : bool :=
  let n := nat_of_ascii a in
  ((9 <=? n) && (n <=? 13) || (28 <=? n) && (n <=? 32)
   || (n =? 133) || (n =? 160))%nat.

(** [s.lstrip()] *)
Fixpoint lstrip (s : string) : string :=
  match s with
  | EmptyString => EmptyString
  | String a s' => if isspace a then lstrip s' else s
  end.

(** [s.rstrip()]: a trailing run of white space is dropped. *)
Fixpoint rstrip (s : string) : string :=
  match s with
  | EmptyString => EmptyString
  | String a s' =>
      match rstrip s' with
      | EmptyString => if isspace a then EmptyString else String a EmptyString
      | r => String a r
      end
  end.

(** [s.strip()] *)
Definition strip (s : string) : string := rstrip (lstrip s).

(** ** [os.path.splitext] (posixpath: [sep = '/'], [extsep = '.']) *)

(** [s.rfind(c)]: the last index of [c] in [s], or [-1]. *)
Fixpoint rfind_from (c : ascii) (s : string) (i : Z) (last : Z) : Z :=
  match s with
  | EmptyString => last
  | String a s' => rfind_from c s' (i + 1) (if Ascii.eqb a c then i else last)
  end.

Definition rfind (c : ascii) (s : string) : Z := rfind_from c s 0 (-1).

(** [p[:n]] and [p[n:]] for [0 <= n]. *)
Fixpoint str_take (n : nat) (s : string) : string :=
  match n, s with
  | S n', String a s' => String a (str_take n' s')
  | _, _ => EmptyString
  end.

Fixpoint str_drop (n : nat) (s : string) : string :=
  match n, s with
  | S n', String _ s' => str_drop n' s'
  | _, _ => s
  end.

(** The loop of [genericpath._splitext] that skips leading dots: over the
    characters [p[sepIndex+1 : dotIndex]], it answers [true] as soon as one
    is not a dot. *)
Fixpoint has_non_dot (s : string) : bool :=
  match s with
  | EmptyString => false
  | String a s' => if Ascii.eqb a "."%char then has_non_dot s' else true
  end.

Definition splitext (p : string) : string * string :=
  let sepIndex := rfind "/"%char p in
  let dotIndex := rfind "."%char p in
  if (dotIndex >? sepIndex) &&
     has_non_dot (str_take (Z.to_nat (dotIndex - (sepIndex + 1)))
                           (str_drop (Z.to_nat (sepIndex + 1)) p))
  then (str_take (Z.to_nat dotIndex) p, str_drop (Z.to_nat dotIndex) p)
  else (p, EmptyString).

(** ** Exceptions, the world and the command monad *)

(** The exceptions a command can end with: those of the library (the error
    taxonomy of the design document), those [cli.py] raises itself, and the
    two the interpreter raises in [cli.py] ([ValueError] when a sequence of
    the wrong length is unpacked, [FileNotFoundError] when a missing file is
    opened for reading). *)
Inductive exn : Type :=
  | FormatError
  | TruncatedStreamError
  | OverrunError
  | SizeMismatchError
  | UnknownTagError
  | AmbiguousKeyError
  | DuplicateEntryError
  | ArgumentTypeError (msg : string)
  | ValueError
  | FileNotFoundError (path : string).

Inductive result (A : Type) : Type :=
  | Ok (a : A)
  | Raise (e : exn).
Arguments Ok {A} a.
Arguments Raise {A} e.

(** What a command can observe and change.  [files] maps the path of every
    regular file to its bytes ([os.path.exists] and [os.path.isfile] agree
    on such a store, and opening a path for writing always succeeds);
    [stdin] lists what the successive calls of [sys.stdin.readlines()]
    return; [stderr] lists the lines printed to [sys.stderr]; [opened] lists,
    in order, the paths that were opened for writing. *)
Record World : Type := mkWorld {
  files : gmap string (list byte);
  stdin : list (list string);
  stderr : list string;
  opened : list string
}.

Definition M (A : Type) : Type := World → result A * World.

Definition ret {A} (a : A) : M A := λ w, (Ok a, w).
Definition raise {A} (e : exn) : M A := λ w, (Raise e, w).
Definition lift {A} (r : result A) : M A := λ w, (r, w).
Definition bind {A B} (m : M A) (k : A → M B) : M B :=
  λ w, match m w with
       | (Ok a, w') => k a w'
       | (Raise e, w') => (Raise e, w')
       end.

Notation "x <-- m ;; k" := (bind m (λ x, k))
  (at level 100, m at next level, right associativity).
Notation "m ;;; k" := (bind m (λ _, k))
  (at level 100, right associativity).

(** A [for] loop whose body updates the local variables [b]. *)
Fixpoint foldM {A B} (body : B → A → M B) (xs : list A) (b : B) : M B :=
  match xs with
  | [] => ret b
  | x :: xs' => b' <-- body b x ;; foldM body xs' b'
  end.

(** [os.path.exists(p)] *)
Definition os_path_exists (p : string) : M bool :=
  λ w, (Ok (bool_decide (is_Some (files w !! p))), w).

(** [os.path.isfile(p)] *)
Definition os_path_isfile (p : string) : M bool :=
  λ w, (Ok (bool_decide (is_Some (files w !! p))), w).

(** [open(p, 'rb').read()] *)
Definition read_file (p : string) : M (list byte) :=
  λ w, match files w !! p with
       | Some d => (Ok d, w)
       | None => (Raise (FileNotFoundError p), w)
       end.

(** [open(p, 'wb')]: the file is created or truncated. *)
Definition open_wb (p : string) : M unit :=
  λ w, (Ok tt, mkWorld (<[p := []]> (files w)) (stdin w) (stderr w)
                       (opened w ++ [p])).

(** [fp.write(d)] on the file opened at [p]: [d] is appended. *)
Definition fp_write (p : string) (d : list byte) : M unit :=
  λ w, (Ok tt, mkWorld (<[p := default [] (files w !! p) ++ d]> (files w))
                       (stdin w) (stderr w) (opened w)).

(** [print(msg, file=sys.stderr)] *)
Definition print_stderr (msg : string) : M unit :=
  λ w, (Ok tt, mkWorld (files w) (stdin w) (stderr w ++ [msg]) (opened w)).

(** [sys.stdin.readlines()] *)
Definition readlines : M (list string) :=
  λ w, (Ok (hd [] (stdin w)), mkWorld (files w) (tl (stdin w)) (stderr w)
                                      (opened w)).

(** ** The library interface used by [cli.py] *)

(** Modelled from the spec: the class [IcnsFile] and [IcnsType.key_from_readable]
    are defined outside [cli.py].  The interface lists the methods [cli.py]
    calls, with the signatures of the design document (4.1 and 6): the
    constructor [IcnsFile()], the parser behind [IcnsFile(file)],
    [add_media(key, file=, force=)] on the name and the bytes of [file],
    [remove_media(key)] with its boolean answer, [has_toc()], and the bytes
    [write(fname, toc=)] persists.  An archive is a value: the methods that
    mutate the Python object return the new archive. *)
Class IcnsFileAPI (Archive Key : Type) : Type := {
  IcnsFile_new : Archive;
  IcnsFile_parse : list byte → result Archive;
  add_media : Archive → option Key → string → list byte → bool → result Archive;
  remove_media : Archive → Key → Archive * bool;
  has_toc : Archive → bool;
  to_bytes : Archive → bool → list byte;
  key_from_readable : string → result Key
}.

(** Modelled from the spec: the class [ArgbImage] is defined outside
    [cli.py].  The interface lists what [cli.py] uses: the constructor
    [ArgbImage(file=)] on the name and the bytes of the file,
    [load_mask(file=)], the attribute [size], the bytes [write_png]
    persists, and [argb_data()], [rgb_data()], [mask_data()]. *)
Class ArgbImageAPI (Image : Type) : Type := {
  ArgbImage_decode : string → list byte → result Image;
  load_mask : Image → string → list byte → result Image;
  size : Image → Z * Z;
  png_data : Image → list byte;
  argb_data : Image → list byte;
  rgb_data : Image → list byte;
  mask_data : Image → list byte
}.

(** ** The arguments of the commands (the attributes of [args] each reads) *)

Record ComposeArgs : Type := mkComposeArgs {
  compose_target : string;
  compose_force : bool;
  compose_no_toc : bool;
  compose_source : list string
}.

Record UpdateArgs : Type := mkUpdateArgs {
  update_file : string;
  update_output : option string;
  update_rm : option (list string);
  update_set : option (list string)
}.

Record ConvertArgs : Type := mkConvertArgs {
  convert_raw : bool;
  convert_target : string;
  convert_source : string;
  convert_mask : option string
}.

Section Commands.
Context {Archive Key : Type} {icns_api : IcnsFileAPI Archive Key}.
Context {Image : Type} {image_api : ArgbImageAPI Image}.

(** [IcnsFile(file)] *)
Definition IcnsFile_open (file : string) : M Archive :=
  d <-- read_file file ;; lift (IcnsFile_parse d).

(** [icns.add_media(key, file=file, force=force)] *)
Definition add_media_file (icns : Archive) (key : option Key)
    (file : string) (force : bool) : M Archive :=
  d <-- read_file file ;; lift (add_media icns key file d force).

(** [icns.write(fname, toc=toc)] *)
Definition IcnsFile_write (icns : Archive) (fname : string) (toc : bool)
    : M unit :=
  open_wb fname ;;; fp_write fname (to_bytes icns toc).

(** [ArgbImage(file=file)] *)
Definition ArgbImage_open (file : string) : M Image :=
  d <-- read_file file ;; lift (ArgbImage_decode file d).

(** [img.load_mask(file=file)] *)
Definition load_mask_file (img : Image) (file : string) : M Image :=
  d <-- read_file file ;; lift (load_mask img file d).

(** [img.write_png(dest)] *)
Definition write_png (img : Image) (dest : string) : M unit :=
  open_wb dest ;;; fp_write dest (png_data img).

(** *** [enum_with_stdin]

    The generator is embedded as the loop that consumes it:
    [enum_with_stdin file_arg body a] is
    [for y in enum_with_stdin(file_arg): a = body(a, y)], the body running
    at each [yield]. *)
Definition enum_with_stdin {A} (file_arg : list string)
    (body : A → string → M A) (a : A) : M A :=
  foldM (λ a x,
           if String.eqb x "-" then
             lines <-- readlines ;;
             foldM (λ a line, body a (strip line)) lines a
           else body a x)
        file_arg a.

(** *** [cli_compose] *)

(** Lines 33 to 35: the destination path. *)
Definition compose_dest (target : string) : string :=
  if negb (truthy (splitext target).2) then target +:+ ".icns" else target.

Definition compose_exists_msg (dest : string) : string :=
  "File " +:+ quoted dest +:+ " already exists. Force overwrite with -f.".

Definition cli_compose (args : ComposeArgs) : M unit :=
  let dest := compose_dest (compose_target args) in
  ex <-- (if negb (compose_force args) then os_path_exists dest
          else ret false) ;;
  if ex then print_stderr (compose_exists_msg dest)
  else
    img <-- enum_with_stdin (compose_source args)
              (λ img x, add_media_file img None x false) IcnsFile_new ;;
    IcnsFile_write img dest (negb (compose_no_toc args)).

(** *** [cli_update] *)

(** The local function [fail] of the [-set] loop. *)
Definition fail {A} (key_val : string) : M A :=
  raise (ArgumentTypeError
           ("Expected arg format KEY=FILE - got " +:+ quoted key_val)).

(** The body of the [-rm] loop, on the locals [(icns, has_changes)]. *)
Definition update_rm_body (st : Archive * bool) (x : string)
    : M (Archive * bool) :=
  key <-- lift (key_from_readable x) ;;
  let r := remove_media st.1 key in
  ret (r.1, st.2 || r.2).

(** The body of the [-set] loop, on the locals [(icns, has_changes)]. *)
Definition update_set_body (st : Archive * bool) (key_val : string)
    : M (Archive * bool) :=
  if negb (char_in "="%char key_val) then fail key_val
  else match split "="%char key_val with
       | [key; val] =>
           if negb (truthy val) then fail key_val
           else
             isf <-- os_path_isfile val ;;
             if negb isf then
               raise (ArgumentTypeError
                        ("File does not exist " +:+ quoted val))
             else
               k <-- lift (key_from_readable key) ;;
               icns <-- add_media_file st.1 (Some k) val true ;;
               ret (icns, true)
       | _ => raise ValueError
       end.

Definition cli_update (args : UpdateArgs) : M unit :=
  icns <-- IcnsFile_open (update_file args) ;;
  st <-- foldM update_rm_body (list_or_nil (update_rm args)) (icns, false) ;;
  st <-- foldM update_set_body (list_or_nil (update_set args)) st ;;
  if st.2 || truthy_opt (update_output args) then
    IcnsFile_write st.1 (str_or (update_output args) (update_file args))
                   (has_toc st.1)
  else ret tt.

(** *** [cli_convert] *)

(** Lines 103 to 105: the destination path. *)
Definition convert_dest (args : ConvertArgs) : string :=
  if bool_decide (convert_target args ∈ ["png"; "argb"; "rgb"]) then
    convert_source args +:+ "." +:+ convert_target args
  else convert_target args.

Definition convert_unknown_msg (dest : string) : string :=
  "Could not determine target image-type for file " +:+ quoted dest +:+ ".".

(** The four zero bytes written for it32. *)
Definition it32_header : list byte := [x00; x00; x00; x00].

(** Lines 99 to 101: the image, with the mask when one is given. *)
Definition convert_load (args : ConvertArgs) : M Image :=
  img <-- ArgbImage_open (convert_source args) ;;
  match convert_mask args with
  | Some m => if truthy m then load_mask_file img m else ret img
  | None => ret img
  end.

Definition cli_convert (args : ConvertArgs) : M unit :=
  img <-- convert_load args ;;
  let dest := convert_dest args in
  let ext := (splitext dest).2 in
  if String.eqb ext ".png" then write_png img dest
  else if String.eqb ext ".argb" then
    open_wb dest ;;; fp_write dest (argb_data img)
  else if String.eqb ext ".rgb" then
    open_wb dest ;;;
    (if negb (convert_raw args) && bool_decide (size img = (128, 128))
     then fp_write dest it32_header else ret tt) ;;;
    fp_write dest (rgb_data img) ;;;
    open_wb (dest +:+ ".mask") ;;;
    fp_write (dest +:+ ".mask") (mask_data img)
  else print_stderr (convert_unknown_msg dest).

(** The archive [cli_compose] is expected to build: the files [xs] added
    one after the other to [a], each read from the store [fs]. *)
Fixpoint add_all (fs : gmap string (list byte)) (xs : list string)
    (a : Archive) : result Archive :=
  match xs with
  | [] => Ok a
  | x :: xs' =>
      match fs !! x with
      | None => Raise (FileNotFoundError x)
      | Some d =>
          match add_media a None x d false with
          | Ok a' => add_all fs xs' a'
          | Raise e => Raise e
          end
      end
  end.

End Commands.

(** ** What [enum_with_stdin] is expected to yield *)

(** The sequence described for [enum_with_stdin]: every argument other than
    ['-'] stands for itself, and every ['-'] stands for the lines that the
    next [readlines()] returns, each stripped. *)
Fixpoint expected_yield (file_arg : list string) (reads : list (list string))
    : list string :=
  match file_arg with
  | [] => []
  | x :: xs =>
      if decide (x = "-") then
        (strip <$> hd [] reads) ++ expected_yield xs (tl reads)
      else [x] ++ expected_yield xs reads
  end.

(** How many times [readlines()] is called. *)
Definition dash_count (file_arg : list string) : nat :=
  length (filter (λ x, x = "-") file_arg).

(** [list(enum_with_stdin(file_arg))] *)
Definition enum_to_list (file_arg : list string) : M (list string) :=
  enum_with_stdin file_arg (λ acc y, ret (acc ++ [y])) [].

(** ** What a stripped line is *)

(** A string of white space only. *)
Fixpoint all_space (s : string) : bool :=
  match s with
  | EmptyString => true
  | String a s' => isspace a && all_space s'
  end.

(** A string whose first character, if any, is not white space. *)
Definition starts_clean (s : string) : Prop :=
  ∀ a s', s = String a s' → isspace a = false.

(** A string whose last character, if any, is not white space. *)
Definition ends_clean (s : string) : Prop :=
  ∀ s' a, s = s' +:+ String a EmptyString → isspace a = false.

(** [s] is [line] without its surrounding white space: [line] is [s] between
    two runs of white space, and [s] neither starts nor ends with white
    space. *)
Definition stripped_of (line s : string) : Prop :=
  ∃ l r, line = l +:+ s +:+ r
         ∧ all_space l = true ∧ all_space r = true
         ∧ starts_clean s ∧ ends_clean s.

(** The sequence described for [enum_with_stdin], in words that do not
    mention [strip]: an argument other than ['-'] is yielded as it is; a
    ['-'] is replaced by the lines of the next [readlines()], in their
    order, each without its surrounding white space. *)
Inductive described_yield
    : list string → list (list string) → list string → Prop :=
  | described_nil reads : described_yield [] reads []
  | described_arg x xs reads ys :
      x ≠ "-" →
      described_yield xs reads ys →
      described_yield (x :: xs) reads (x :: ys)
  | described_stdin xs reads ls ys :
      Forall2 stripped_of (hd [] reads) ls →
      described_yield xs (tl reads) ys →
      described_yield ("-" :: xs) reads (ls ++ ys).

(** ** A model of [IcnsFile] after the design document *)

Module SpecIcns.

(** Modelled from the spec: the archive of section 3, an ordered sequence
    of entries (type tag, payload) and the presence of a lookup table,
    which is fixed when the archive is built or read.  A type tag is a
    four-character code. *)
Record Archive : Type := mkArchive {
  entries : list (string * list byte);
  toc : bool
}.

(** The position of the entry with tag [tag]. *)
Definition find_tag (tag : string) (es : list (string * list byte))
    : option nat :=
  fst <$> list_find (λ e, e.1 = tag) es.

(** The two ways the registry fails to resolve a key (section 7). *)
Inductive registry_error : Type := UnknownTag | AmbiguousKey.

Definition registry_exn (e : registry_error) : exn :=
  match e with
  | UnknownTag => UnknownTagError
  | AmbiguousKey => AmbiguousKeyError
  end.

Definition of_registry {A} (r : registry_error + A) : result A :=
  match r with
  | inl e => Raise (registry_exn e)
  | inr a => Ok a
  end.

Section Model.
(** The registry table, the container parser and the serializer are not
    described byte by byte; the model takes them as they come.
    [resolve key file data] is the registry's answer for [add_media]:
    the final tag and the payload to store.  [parse] answers [None] on
    a [FormatError]. *)
Variable resolve :
  option string → string → list byte → registry_error + (string * list byte).
Variable parse : list byte → option Archive.
Variable serialize : Archive → bool → list byte.
Variable readable : string → registry_error + string.

(** Modelled from the spec: [add_media] of section 4.1 is absent from
    [cli.py].  The final tag and the payload come from the registry
    ([resolve]); an entry with that tag is replaced in place under
    [force] and is a [DuplicateEntryError] otherwise; a new tag is
    appended. *)
Definition add_media (a : Archive) (key : option string) (file : string)
    (data : list byte) (force : bool) : result Archive :=
  match resolve key file data with
  | inl e => Raise (registry_exn e)
  | inr (tag, payload) =>
      match find_tag tag (entries a) with
      | Some i =>
          if force then
            Ok (mkArchive (<[i := (tag, payload)]> (entries a)) (toc a))
          else Raise DuplicateEntryError
      | None => Ok (mkArchive (entries a ++ [(tag, payload)]) (toc a))
      end
  end.

(** Modelled from the spec: [remove_media] of section 4.1 is absent from
    [cli.py].  It removes at most one entry, answers whether it removed
    one, and never fails. *)
Definition remove_media (a : Archive) (tag : string) : Archive * bool :=
  match find_tag tag (entries a) with
  | Some i => (mkArchive (delete i (entries a)) (toc a), true)
  | None => (a, false)
  end.

(** Modelled from the spec: [has_toc] is absent from [cli.py]; the lookup
    table is present exactly when the archive was built or read with
    one (section 3). *)
Definition has_toc (a : Archive) : bool := toc a.

#[export] Instance api : IcnsFileAPI Archive string :=
  Build_IcnsFileAPI Archive string
    (mkArchive [] false)
    (λ d, match parse d with Some a => Ok a | None => Raise FormatError end)
    add_media remove_media has_toc serialize
    (λ x, of_registry (readable x)).
End Model.

End SpecIcns.

(** ** A model of [ArgbImage] after the design document *)

Module SpecImage.

Record Pixel : Type := mkPixel { red : byte; green : byte; blue : byte; alpha : byte }.

(** Modelled from the spec: the pixel buffer of section 3, a width, a
    height and the RGBA samples in row-major order. *)
Record PixelBuffer : Type := mkPixelBuffer {
  width : Z;
  height : Z;
  pixels : list Pixel
}.

(** The buffer holds one sample per pixel of the grid. *)
Definition well_formed (img : PixelBuffer) : Prop :=
  0 < width img ∧ 0 < height img ∧
  Z.of_nat (length (pixels img)) = width img * height img.

(** Modelled from the spec: [rgb_data] is absent from [cli.py]; packing
    (section 4.4) emits the R, G, B triple of every pixel in row-major
    order. *)
Definition rgb_data (img : PixelBuffer) : list byte :=
  p ← pixels img; [red p; green p; blue p].

(** Modelled from the spec: [mask_data] is absent from [cli.py]; the mask
    is one alpha sample per pixel in the same order (section 4.4). *)
Definition mask_data (img : PixelBuffer) : list byte :=
  alpha <$> pixels img.

Section Model.
(** The decoders and the two other encoders are taken as they come. *)
Variable decode : string → list byte → result PixelBuffer.
Variable with_mask : PixelBuffer → string → list byte → result PixelBuffer.
Variable png : PixelBuffer → list byte.
Variable argb : PixelBuffer → list byte.

#[export] Instance api : ArgbImageAPI PixelBuffer :=
  Build_ArgbImageAPI PixelBuffer decode with_mask
    (λ img, (width img, height img)) png argb rgb_data mask_data.
End Model.

End SpecImage.

(** ** The commands that print: [cli_print] and [cli_verify] *)

(** The world and the standard output: [stdout] lists what the successive
    calls of [print] wrote. *)
Record Console : Type := mkConsole {
  world : World;
  stdout : list string
}.

Definition MC (A : Type) : Type := Console → result A * Console.

Definition retC {A} (a : A) : MC A := λ c, (Ok a, c).
Definition raiseC {A} (e : exn) : MC A := λ c, (Raise e, c).
Definition bindC {A B} (m : MC A) (k : A → MC B) : MC B :=
  λ c, match m c with
       | (Ok a, c') => k a c'
       | (Raise e, c') => (Raise e, c')
       end.

(** A computation on the world, run with the console. *)
Definition liftC {A} (m : M A) : MC A :=
  λ c, let r := m (world c) in (r.1, mkConsole r.2 (stdout c)).

Notation "x <~~ m ;; k" := (bindC m (λ x, k))
  (at level 100, m at next level, right associativity).
Notation "m ;;~ k" := (bindC m (λ _, k))
  (at level 100, right associativity).

Fixpoint foldMC {A B} (body : B → A → MC B) (xs : list A) (b : B) : MC B :=
  match xs with
  | [] => retC b
  | x :: xs' => b' <~~ body b x ;; foldMC body xs' b'
  end.

(** [print(s)] *)
Definition print (s : string) : MC unit :=
  λ c, (Ok tt, mkConsole (world c) (stdout c ++ [s])).

(** [print(a, b)]: the two strings with a space between them. *)
Definition print2 (a b : string) : MC unit := print (a +:+ " " +:+ b).

(** [enum_with_stdin], consumed by a loop that prints. *)
Definition enum_with_stdin_console {A} (file_arg : list string)
    (body : A → string → MC A) (a : A) : MC A :=
  foldMC (λ a x,
            if String.eqb x "-" then
              lines <~~ liftC readlines ;;
              foldMC (λ a line, body a (strip line)) lines a
            else body a x)
         file_arg a.

(** Modelled from the spec: the static methods [IcnsFile.description] and
    [IcnsFile.verify] are defined outside [cli.py].  Both take the name of a
    file, modelled with its bytes.  [description(fname, verbose=, indent=)]
    answers a text or raises; [verify(fname)] is a generator: it yields
    finitely many issues and then stops or raises. *)
Class IcnsReportAPI : Type := {
  description : string → list byte → bool → Z → result string;
  verify : string → list byte → list string * option exn
}.

Record PrintArgs : Type := mkPrintArgs {
  print_file : list string;
  print_verbose : bool
}.

Record VerifyArgs : Type := mkVerifyArgs {
  verify_file : list string;
  verify_quiet : bool
}.

Section Reports.
Context {report_api : IcnsReportAPI}.

(** *** [cli_print] *)
Definition cli_print (args : PrintArgs) : MC unit :=
  enum_with_stdin_console (print_file args)
    (λ _ fname,
       print2 "File:" fname ;;~
       d <~~ liftC (read_file fname) ;;
       text <~~ liftC (lift (description fname d (print_verbose args) 2)) ;;
       print text)
    tt.

(** *** [cli_verify] *)

(** The body of the loop over the issues, on the local [is_valid], which is
    [True], [None] or [False]. *)
Definition verify_issue (fname : string) (is_valid : option bool)
    (issue : string) : MC (option bool) :=
  (match is_valid with
   | Some true => print2 "File:" fname
   | _ => retC tt
   end) ;;~
  print2 " " issue ;;~
  retC (Some false).

(** The body of the loop over the files. *)
Definition verify_body (args : VerifyArgs) (fname : string) : MC unit :=
  is_valid <~~ (if negb (verify_quiet args) then
                  print2 "File:" fname ;;~ retC None
                else retC (Some true)) ;;
  d <~~ liftC (read_file fname) ;;
  is_valid <~~ foldMC (verify_issue fname) (verify fname d).1 is_valid ;;
  (match (verify fname d).2 with
   | Some e => raiseC e
   | None => retC tt
   end) ;;~
  if negb (verify_quiet args)
     && negb (bool_decide (is_valid = Some false))
  then print "OK" else retC tt.

Definition cli_verify (args : VerifyArgs) : MC unit :=
  enum_with_stdin_console (verify_file args) (λ _ fname, verify_body args fname)
    tt.

(** What [cli_verify] is expected to print for one file with the issues
    [issues]. *)
Definition verify_report (quiet : bool) (fname : string)
    (issues : list string) : list string :=
  (if quiet && bool_decide (issues = []) then [] else ["File: " +:+ fname])
  ++ ((λ issue, "  " +:+ issue) <$> issues)
  ++ (if negb quiet && bool_decide (issues = []) then ["OK"] else []).

(** The issues of the file [fname] in the store [fs]. *)
Definition file_issues (fs : gmap string (list byte)) (fname : string)
    : list string :=
  match fs !! fname with
  | Some d => (verify fname d).1
  | None => []
  end.

(** What [cli_print] is expected to print for one file. *)
Definition print_report (verbose : bool) (fs : gmap string (list byte))
    (fname : string) : list string :=
  match fs !! fname with
  | Some d => match description fname d verbose 2 with
              | Ok text => ["File: " +:+ fname; text]
              | Raise _ => []
              end
  | None => []
  end.

End Reports.

(** ** [cli_extract] *)

(** [os.path.join(a, b)] (posixpath) *)
Definition os_path_join (a b : string) : string :=
  match b with
  | String "/" _ => b
  | _ => if negb (truthy a) || String.eqb (str_drop (String.length a - 1) a) "/"
         then a +:+ b
         else a +:+ "/" +:+ b
  end.

Record ExtractArgs : Type := mkExtractArgs {
  extract_file : list string;
  extract_export_dir : option string;
  extract_recursive : bool;
  extract_convert : bool;
  extract_keys : bool;
  extract_png_only : bool
}.

(** Line 17: [multiple]. *)
Definition extract_multiple (args : ExtractArgs) : bool :=
  (1 <? length (extract_file args))%nat
  || bool_decide ("-" ∈ extract_file args).

(** The directory given to [export] for the file of index [i] (lines 20 to
    22). *)
Definition extract_out (args : ExtractArgs) (i : nat) : option string :=
  match extract_export_dir args with
  | Some out =>
      if truthy out && extract_multiple args
      then Some (os_path_join out (pretty i)) else Some out
  | None => None
  end.

Section Extract.
Context {Archive Key : Type} {icns_api : IcnsFileAPI Archive Key}.

(** [os.makedirs(out, exist_ok=True)] creates directories, which the world
    does not hold, and [IcnsFile.export] writes the files of an archive
    through the library: both are taken as they come, as computations on
    the world.  [export] gets the archive, the directory, [allowed_ext],
    [recursive], [convert_png] and [key_suffix]. *)
Variable makedirs : string → M unit.
Variable export : Archive → option string → string → bool → bool → bool → M unit.

(** The body of the loop, on the counter of [enumerate]. *)
Definition extract_body (args : ExtractArgs) (i : nat) (fname : string)
    : M nat :=
  let out := extract_export_dir args in
  out <-- (if truthy_opt out && extract_multiple args then
             let out' := os_path_join (default EmptyString out) (pretty i) in
             makedirs out' ;;; ret (Some out')
           else ret out) ;;
  icns <-- IcnsFile_open fname ;;
  export icns out (if extract_png_only args then "png" else "*")
         (extract_recursive args) (extract_convert args) (extract_keys args) ;;;
  ret (S i).

Definition cli_extract (args : ExtractArgs) : M unit :=
  enum_with_stdin (extract_file args) (extract_body args) 0%nat ;;; ret tt.

(** What the loop does for the file [fname] of index [i]. *)
Definition extract_one (args : ExtractArgs) (i : nat) (fname : string)
    : M unit :=
  (if truthy_opt (extract_export_dir args) && extract_multiple args
   then makedirs (default EmptyString (extract_out args i)) else ret tt) ;;;
  icns <-- IcnsFile_open fname ;;
  export icns (extract_out args i) (if extract_png_only args then "png" else "*")
         (extract_recursive args) (extract_convert args) (extract_keys args).

End Extract.

(** ** A small report library and export to run the other commands on *)

Module Fixture.

(** The description names the file; an empty file has one issue. *)
Definition reports : IcnsReportAPI :=
  Build_IcnsReportAPI
    (λ fname d verbose indent, Ok ("entries of " +:+ fname))
    (λ fname d, (match d with [] => ["Empty file"] | _ => [] end, None)).

(** Directories are not kept. *)
Definition makedirs (p : string) : M unit := ret tt.

(** The export notes the directory on [stderr]. *)
Definition export (icns : SpecIcns.Archive) (out : option string)
    (allowed_ext : string) (recursive convert_png key_suffix : bool)
    : M unit :=
  print_stderr (default "." out).

(** A sound archive, an empty file, and their names on the standard
    input. *)
Definition console : Console :=
  mkConsole
    (mkWorld (<["e.icns" := []]> (<["a.icns" := [x01]]> ∅))
             [["a.icns"; "e.icns"]] [] [])
    [].

End Fixture.

(** ** Vocabulary of the properties *)

(** A computation that leaves the file store alone: the files are the same
    afterwards and no path was opened for writing. *)
Definition no_write {A} (m : M A) : Prop :=
  ∀ w, files (m w).2 = files w ∧ opened (m w).2 = opened w.

(** A [-set] argument that [cli_update] must refuse, given the file store:
    it has no ['='], or nothing after the ['='], or what follows the ['=']
    is not the path of a file. *)
Definition bad_set_arg (fs : gmap string (list byte)) (key_val : string)
    : Prop :=
  char_in "="%char key_val = false
  ∨ (∃ key, key_val = key +:+ "=")
  ∨ (∃ key val, key_val = key +:+ "=" +:+ val ∧ fs !! val = None).


(** A computation that only reads: the world is the same afterwards. *)
Definition read_only {A} (m : M A) : Prop :=
  ∀ w, (m w).2 = w.

(** ** A small library and world to run the commands on *)

Module Sample.

(** A registry that takes a given key as the tag and stores the bytes of
    the file as they are; a file given without a key is an ['icp4']. *)
Definition resolve (key : option string) (file : string) (data : list byte)
    : SpecIcns.registry_error + (string * list byte) :=
  match key with
  | Some k => inr (k, data)
  | None => inr ("icp4", data)
  end.

(** Every file reads as an archive with a lookup table and one ['ic07']
    entry holding the bytes of the file. *)
Definition parse (d : list byte) : option SpecIcns.Archive :=
  Some (SpecIcns.mkArchive [("ic07", d)] true).

(** One byte for the lookup-table flag, then the payloads. *)
Definition serialize (a : SpecIcns.Archive) (toc : bool) : list byte :=
  (if toc then [x01] else [x00]) ++ concat ((SpecIcns.entries a).*2).

Definition readable (x : string) : SpecIcns.registry_error + string := inr x.

Definition icns : IcnsFileAPI SpecIcns.Archive string :=
  SpecIcns.api resolve parse serialize readable.

(** Every file decodes to an opaque black 128x128 image. *)
Definition icon128 : SpecImage.PixelBuffer :=
  SpecImage.mkPixelBuffer 128 128
    (replicate (128 * 128) (SpecImage.mkPixel x00 x00 x00 xff)).

Definition decode (file : string) (d : list byte)
    : result SpecImage.PixelBuffer := Ok icon128.

Definition with_mask (img : SpecImage.PixelBuffer) (file : string)
    (d : list byte) : result SpecImage.PixelBuffer := Ok img.

Definition png (img : SpecImage.PixelBuffer) : list byte := [].

Definition argb (img : SpecImage.PixelBuffer) : list byte := [].

Definition image : ArgbImageAPI SpecImage.PixelBuffer :=
  SpecImage.api decode with_mask png argb.

(** Two files, and a standard input with one line. *)
Definition world : World :=
  mkWorld (<["b.png" := [x02]]> (<["a.icns" := [x01]]> ∅))
          [["c.png"]] [] [].

End Sample.

(** ** Vocabulary of the further properties *)

(** The world with another standard input. *)
Definition set_stdin (s : list (list string)) (w : World) : World :=
  mkWorld (files w) s (stderr w) (opened w).

(** Two worlds that differ at most in what is left of the standard input. *)
Definition same_but_stdin (w w' : World) : Prop :=
  files w = files w' ∧ stderr w = stderr w' ∧ opened w = opened w'.

(** A loop body that neither reads nor changes the standard input. *)
Definition stdin_oblivious {A} (body : A → string → M A) : Prop :=
  ∀ a y w s,
    body a y (set_stdin s w) = ((body a y w).1, set_stdin s (body a y w).2).

(** A path whose last component has a character other than a dot: some
    character is neither ['.'] nor ['/'] and no ['/'] follows it. *)
Definition proper_name (p : string) : Prop :=
  ∃ a c b, p = a +:+ String c b
           ∧ c ≠ "."%char ∧ c ≠ "/"%char ∧ char_in "/"%char b = false.

(** The arguments of [convert] with another [--raw]. *)
Definition with_raw (raw : bool) (args : ConvertArgs) : ConvertArgs :=
  mkConvertArgs raw (convert_target args) (convert_source args)
                (convert_mask args).

(** Lines 49 to 68 of [cli_update]: the locals [(icns, has_changes)] with
    which the write is reached. *)
Definition update_locals {Archive Key : Type}
    {icns_api : IcnsFileAPI Archive Key} (args : UpdateArgs)
    : M (Archive * bool) :=
  icns <-- IcnsFile_open (update_file args) ;;
  st <-- foldM update_rm_body (list_or_nil (update_rm args)) (icns, false) ;;
  foldM update_set_body (list_or_nil (update_set args)) st.

(** A computation that neither reads nor changes the standard input. *)
Definition ignores_stdin {A} (m : M A) : Prop :=
  ∀ w s, m (set_stdin s w) = ((m w).1, set_stdin s (m w).2).

(** [enumerate(ys)] *)
Definition enumerate {A} (ys : list A) : list (nat * A) :=
  zip (seq 0 (length ys)) ys.

(** A result without its value. *)
Definition void {A} (r : result A) : result unit :=
  match r with
  | Ok _ => Ok tt
  | Raise e => Raise e
  end.

(** * Properties *)

(** ** Strings and paths on examples *)

Example splitext_plain : splitext "icon" = ("icon", EmptyString).
Proof. reflexivity. Qed.

Example splitext_icns : splitext "out/icon.icns" = ("out/icon", ".icns").
Proof. reflexivity. Qed.

Example splitext_dotdir : splitext "out.d/icon" = ("out.d/icon", EmptyString).
Proof. reflexivity. Qed.

Example splitext_hidden : splitext ".hidden" = (".hidden", EmptyString).
Proof. reflexivity. Qed.

Example splitext_two : splitext "a.tar.gz" = ("a.tar", ".gz").
Proof. reflexivity. Qed.

Example strip_line :
  strip (" a b.png " +:+ String (ascii_of_nat 10) EmptyString) = "a b.png".
Proof. reflexivity. Qed.

Example split_kv : split "=" "ic07=a.png" = ["ic07"; "a.png"].
Proof. reflexivity. Qed.

Example split_kvv : split "=" "a=b=" = ["a"; "b"; EmptyString].
Proof. reflexivity. Qed.

Example compose_dest_plain : compose_dest "icon" = "icon.icns".
Proof. reflexivity. Qed.

Example compose_dest_ext : compose_dest "icon.bin" = "icon.bin".
Proof. reflexivity. Qed.

Example enum_with_stdin_sample :
  (enum_to_list ["b.png"; "-"; "d.png"] Sample.world).1
  = Ok ["b.png"; "c.png"; "d.png"].
Proof. reflexivity. Qed.

Example cli_compose_sample :
  cli_compose (icns_api := Sample.icns)
    (mkComposeArgs "new" false true ["-"; "b.png"])
    (mkWorld (<["c.png" := [x03]]> (files Sample.world)) [["c.png"]] [] [])
  = (Raise DuplicateEntryError,
     mkWorld (<["c.png" := [x03]]> (files Sample.world)) [] [] []).
Proof. vm_compute. reflexivity. Qed.

Example cli_update_sample :
  (cli_update (icns_api := Sample.icns)
     (mkUpdateArgs "a.icns" (Some "out.icns") (Some ["ic07"])
                   (Some ["ic09=b.png"]))
     Sample.world).2
  = mkWorld (<["out.icns" := [x01; x02]]> (files Sample.world))
            [["c.png"]] [] ["out.icns"].
Proof. vm_compute. reflexivity. Qed.

Example cli_update_two_equals :
  (cli_update (icns_api := Sample.icns)
     (mkUpdateArgs "a.icns" None None (Some ["a=b=c"])) Sample.world)
  = (Raise ValueError, Sample.world).
Proof. vm_compute. reflexivity. Qed.

(** ** The monad and the world *)

Lemma bind_ok {A B} (m : M A) (k : A → M B) w a w' :
  m w = (Ok a, w') → bind m k w = k a w'.
Proof. intros E. unfold bind. by rewrite E. Qed.

Lemma bind_raise {A B} (m : M A) (k : A → M B) w e w' :
  m w = (Raise e, w') → bind m k w = (Raise e, w').
Proof. intros E. unfold bind. by rewrite E. Qed.

Lemma world_eta w : mkWorld (files w) (stdin w) (stderr w) (opened w) = w.
Proof. by destruct w. Qed.

Lemma no_write_ret {A} (a : A) : no_write (ret a).
Proof. by intros w. Qed.

Lemma no_write_raise {A} e : no_write (@raise A e).
Proof. by intros w. Qed.

Lemma no_write_lift {A} (r : result A) : no_write (lift r).
Proof. by intros w. Qed.

Lemma no_write_bind {A B} (m : M A) (k : A → M B) :
  no_write m → (∀ a, no_write (k a)) → no_write (bind m k).
Proof.
  intros Hm Hk w. unfold bind. specialize (Hm w).
  destruct (m w) as [[a|e] w1]; simpl in *; [|done].
  destruct (Hk a w1) as [-> ->]. done.
Qed.

Lemma no_write_foldM {A B} (body : B → A → M B) xs b :
  (∀ b x, no_write (body b x)) → no_write (foldM body xs b).
Proof.
  intros Hb. revert b. induction xs as [|x xs IH]; intros b; simpl.
  - apply no_write_ret.
  - apply no_write_bind; auto.
Qed.

Lemma no_write_exists p : no_write (os_path_exists p).
Proof. by intros w. Qed.

Lemma no_write_isfile p : no_write (os_path_isfile p).
Proof. by intros w. Qed.

Lemma no_write_read_file p : no_write (read_file p).
Proof. intros w. unfold read_file. by destruct (files w !! p). Qed.

Lemma no_write_print_stderr msg : no_write (print_stderr msg).
Proof. by intros w. Qed.

Lemma no_write_readlines : no_write readlines.
Proof. by intros w. Qed.

Lemma no_write_if {A} (b : bool) (m1 m2 : M A) :
  no_write m1 → no_write m2 → no_write (if b then m1 else m2).
Proof. by destruct b. Qed.

Create HintDb nowrite.
#[export] Hint Resolve no_write_ret no_write_raise no_write_lift
  no_write_exists no_write_isfile no_write_read_file no_write_print_stderr
  no_write_readlines : nowrite.
#[export] Hint Extern 2 (no_write (bind _ _)) =>
  apply no_write_bind; [|intros ?] : nowrite.
#[export] Hint Extern 2 (no_write (foldM _ _ _)) =>
  apply no_write_foldM; intros ? ? : nowrite.
#[export] Hint Extern 2 (no_write (if _ then _ else _)) =>
  apply no_write_if : nowrite.

(** A loop that meets an element on which its body raises, raises. *)
Lemma foldM_raises {A B} (body : B → A → M B) (x : A) (xs : list A) fs :
  (∀ b y, no_write (body b y)) →
  x ∈ xs →
  (∀ b w, files w = fs → ∃ e, (body b x w).1 = Raise e) →
  ∀ b w, files w = fs → ∃ e, (foldM body xs b w).1 = Raise e.
Proof.
  intros Hq Hin Hx. induction xs as [|y ys IH]; intros b w Hw.
  - by apply elem_of_nil in Hin.
  - simpl. unfold bind.
    destruct (body b y w) as [[b'|e] w1] eqn:E.
    + apply elem_of_cons in Hin as [->|Hin].
      * destruct (Hx b w Hw) as [e He]. rewrite E in He. done.
      * apply IH; [done|]. destruct (Hq b y w) as [Hf _].
        rewrite E in Hf. simpl in Hf. congruence.
    + by exists e.
Qed.

(** ** Strings *)

Lemma split_nonempty c s : split c s ≠ [].
Proof.
  destruct s as [|a s]; simpl; [done|].
  destruct (Ascii.eqb a c); [done|]. by destruct (split c s).
Qed.

Lemma split_app_sep c a b :
  split c (a +:+ String c b) = split c a ++ split c b.
Proof.
  induction a as [|x a IH]; simpl.
  - by rewrite Ascii.eqb_refl.
  - destruct (Ascii.eqb x c); [by rewrite IH|].
    rewrite IH. destruct (split c a) eqn:E; [|done].
    by apply split_nonempty in E.
Qed.

Lemma split_singleton c s p : split c s = [p] → p = s.
Proof.
  revert p. induction s as [|x s IH]; intros p; simpl.
  - congruence.
  - destruct (Ascii.eqb x c).
    + intros [= _ E]. by apply split_nonempty in E.
    + destruct (split c s) as [|q qs] eqn:E; [by apply split_nonempty in E|].
      intros [= <- ->]. by rewrite (IH q).
Qed.

Lemma char_in_app_sep c a b : char_in c (a +:+ String c b) = true.
Proof.
  induction a as [|x a IH]; simpl.
  - by rewrite Ascii.eqb_refl.
  - by destruct (Ascii.eqb x c).
Qed.

Lemma split_no_sep c s : char_in c s = false → split c s = [s].
Proof.
  induction s as [|x s IH]; simpl; [done|].
  destruct (Ascii.eqb x c); [done|]. intros H. by rewrite IH.
Qed.

(** If [key=val] splits in two, the two pieces are [key] and [val]. *)
Lemma split_key_val key val k v :
  split "="%char (key +:+ "=" +:+ val) = [k; v] → k = key ∧ v = val.
Proof.
  change (key +:+ "=" +:+ val) with (key +:+ String "="%char val).
  rewrite split_app_sep.
  destruct (split "="%char key) as [|k1 [|k2 ks]] eqn:Ek;
    [by apply split_nonempty in Ek| |].
  - destruct (split "="%char val) as [|v1 [|v2 vs]] eqn:Ev;
      [by apply split_nonempty in Ev| |done].
    intros [= <- <-]. split; by eapply split_singleton.
  - destruct (split "="%char val) eqn:Ev; [by apply split_nonempty in Ev|].
    simpl. intros [= _ _ E]. by destruct ks.
Qed.

Lemma str_app_cons x (s t : string) : String x s +:+ t = String x (s +:+ t).
Proof. reflexivity. Qed.

Lemma str_app_nil (t : string) : EmptyString +:+ t = t.
Proof. reflexivity. Qed.

(** ** [enum_with_stdin] *)

Lemma collect_lines (lines : list string) (acc : list string) w :
  foldM (λ a line, ret (a ++ [strip line])) lines acc w
  = (Ok (acc ++ (strip <$> lines)), w).
Proof.
  revert acc. induction lines as [|l lines IH]; intros acc; simpl.
  - by rewrite app_nil_r.
  - unfold bind, ret at 1. rewrite IH. by rewrite <- app_assoc.
Qed.

Lemma enum_collect (file_arg : list string) (acc : list string) w :
  enum_with_stdin file_arg (λ a y, ret (a ++ [y])) acc w
  = (Ok (acc ++ expected_yield file_arg (stdin w)),
     mkWorld (files w) (drop (dash_count file_arg) (stdin w)) (stderr w)
             (opened w)).
Proof.
  unfold enum_with_stdin.
  revert acc w. induction file_arg as [|x xs IH]; intros acc w.
  - simpl. unfold ret. rewrite app_nil_r, world_eta. done.
  - cbn [foldM expected_yield]. unfold dash_count. rewrite filter_cons.
    destruct (decide (x = "-")) as [->|Hx].
    + cbn [String.eqb Ascii.eqb Bool.eqb]. unfold bind at 1 2, readlines.
      rewrite collect_lines. rewrite IH. cbn [files stdin stderr opened length].
      rewrite <- app_assoc. do 2 f_equal.
      unfold dash_count. destruct (stdin w); simpl; [by rewrite drop_nil|done].
    + apply String.eqb_neq in Hx as Hx'. rewrite Hx'.
      unfold bind at 1, ret at 1. rewrite IH. by rewrite <- app_assoc.
Qed.

(** The arguments are taken in order. *)
Lemma expected_yield_app (xs ys : list string) (reads : list (list string)) :
  expected_yield (xs ++ ys) reads
  = expected_yield xs reads
    ++ expected_yield ys (drop (dash_count xs) reads).
Proof.
  revert reads. induction xs as [|x xs IH]; intros reads; [done|].
  cbn [app expected_yield]. unfold dash_count. rewrite filter_cons.
  destruct (decide (x = "-")) as [->|Hx].
  - rewrite IH, <- app_assoc. f_equal. f_equal. f_equal.
    destruct reads; simpl; [by rewrite drop_nil|done].
  - by rewrite IH.
Qed.

(** Without a ['-'], the arguments are yielded as they are. *)
Lemma expected_yield_no_dash (xs : list string) (reads : list (list string)) :
  "-" ∉ xs → expected_yield xs reads = xs.
Proof.
  induction xs as [|x xs IH]; intros Hno; [done|].
  apply not_elem_of_cons in Hno as [Hx Hxs]. simpl.
  rewrite decide_False by done. by rewrite IH.
Qed.

(** *** [strip] gives the line without its surrounding white space *)

Lemma lstrip_spec (line : string) :
  ∃ l, line = l +:+ lstrip line ∧ all_space l = true
       ∧ starts_clean (lstrip line).
Proof.
  induction line as [|x s (l & E & Hl & Hc)].
  - exists EmptyString. split; [done|]. split; [done|]. by intros a s'.
  - cbn [lstrip]. destruct (isspace x) eqn:Hx.
    + exists (String x l). rewrite str_app_cons, <- E. split; [done|].
      split; [|done]. cbn. by rewrite Hx, Hl.
    + exists EmptyString. split; [done|]. split; [done|].
      intros a s' [= <- _]. done.
Qed.

Lemma rstrip_spec (s : string) :
  ∃ r, s = rstrip s +:+ r ∧ all_space r = true.
Proof.
  induction s as [|a s (r & E & Hr)]; [by exists EmptyString|].
  cbn [rstrip]. destruct (rstrip s) as [|b t] eqn:Es.
  - rewrite str_app_nil in E. subst r. destruct (isspace a) eqn:Ha.
    + exists (String a s). split; [done|]. cbn. by rewrite Ha, Hr.
    + exists s. by split.
  - exists r. split; [|done]. rewrite str_app_cons. by rewrite <- E.
Qed.

Lemma str_snoc_not_empty (s : string) a :
  s +:+ String a EmptyString ≠ EmptyString.
Proof. by destruct s. Qed.

Lemma rstrip_ends_clean (s : string) : ends_clean (rstrip s).
Proof.
  induction s as [|x s IH]; intros s' a E.
  - symmetry in E. by apply str_snoc_not_empty in E.
  - cbn [rstrip] in E. destruct (rstrip s) as [|b t] eqn:Es.
    + destruct (isspace x) eqn:Hx.
      * symmetry in E. by apply str_snoc_not_empty in E.
      * destruct s' as [|c s'].
        -- rewrite str_app_nil in E. by injection E as <-.
        -- rewrite str_app_cons in E. injection E as _ E.
           symmetry in E. by apply str_snoc_not_empty in E.
    + destruct s' as [|c s'].
      * rewrite str_app_nil in E. done.
      * rewrite str_app_cons in E. injection E as _ E. by apply (IH s' a).
Qed.

Lemma rstrip_starts_clean (s : string) :
  starts_clean s → starts_clean (rstrip s).
Proof.
  intros Hs. destruct s as [|x s]; [by intros a s'|].
  pose proof (Hs x s eq_refl) as Hx. cbn [rstrip]. rewrite Hx.
  destruct (rstrip s) as [|b t]; by intros a s' [= <- _].
Qed.

Lemma strip_stripped (line : string) : stripped_of line (strip line).
Proof.
  destruct (lstrip_spec line) as (l & El & Hl & Hc).
  destruct (rstrip_spec (lstrip line)) as (r & Er & Hr).
  exists l, r. unfold strip. split; [by rewrite <- Er|].
  split; [done|]. split; [done|].
  split; [by apply rstrip_starts_clean|apply rstrip_ends_clean].
Qed.

(** *** Only one string is the stripped line *)

Lemma all_space_app (s t : string) :
  all_space (s +:+ t) = all_space s && all_space t.
Proof.
  induction s as [|a s IH]; [done|].
  rewrite str_app_cons. cbn. by rewrite IH, andb_assoc.
Qed.

Lemma str_last_char (s : string) :
  s ≠ EmptyString → ∃ s' a, s = s' +:+ String a EmptyString.
Proof.
  induction s as [|x s IH]; [done|]. intros _.
  destruct s as [|y s].
  - by exists EmptyString, x.
  - destruct IH as (s' & a & E); [done|].
    exists (String x s'), a. by rewrite str_app_cons, <- E.
Qed.

Lemma all_space_ends_clean (s : string) :
  all_space s = true → ends_clean s → s = EmptyString.
Proof.
  intros Hs Hc. destruct s as [|x s]; [done|].
  destruct (str_last_char (String x s)) as (s' & a & E); [done|].
  pose proof (Hc s' a E) as Ha. rewrite E, all_space_app in Hs.
  cbn in Hs. rewrite Ha in Hs. by destruct (all_space s').
Qed.

Lemma all_space_starts_clean (s : string) :
  all_space s = true → starts_clean s → s = EmptyString.
Proof.
  intros Hs Hc. destruct s as [|x s]; [done|].
  cbn in Hs. by rewrite (Hc x s eq_refl) in Hs.
Qed.

Lemma ends_clean_tail x (s : string) : ends_clean (String x s) → ends_clean s.
Proof. intros Hc s' a E. apply (Hc (String x s') a). by rewrite E. Qed.

Lemma stripped_suffix_unique (s1 s2 r1 r2 : string) :
  s1 +:+ r1 = s2 +:+ r2 →
  all_space r1 = true → all_space r2 = true →
  ends_clean s1 → ends_clean s2 → s1 = s2.
Proof.
  revert s2. induction s1 as [|a s1 IH]; intros s2 E H1 H2 C1 C2.
  - rewrite str_app_nil in E. symmetry. apply all_space_ends_clean; [|done].
    rewrite E, all_space_app in H1. by destruct (all_space s2).
  - destruct s2 as [|b s2].
    + rewrite str_app_nil in E. apply all_space_ends_clean; [|done].
      rewrite <- E, all_space_app in H2. by destruct (all_space (String a s1)).
    + rewrite !str_app_cons in E. injection E as -> E. f_equal.
      apply IH; [done..|by eapply ends_clean_tail|by eapply ends_clean_tail].
Qed.

Lemma stripped_unique (line s1 s2 : string) :
  stripped_of line s1 → stripped_of line s2 → s1 = s2.
Proof.
  intros (l1 & r1 & -> & L1 & R1 & A1 & B1) (l2 & r2 & E & L2 & R2 & A2 & B2).
  revert l2 E L2. induction l1 as [|c l1 IH]; intros l2 E L2.
  - rewrite str_app_nil in E. destruct l2 as [|c l2].
    + rewrite str_app_nil in E. by eapply stripped_suffix_unique.
    + cbn in L2. apply andb_prop in L2 as [Hc L2].
      rewrite str_app_cons in E. destruct s1 as [|a s1].
      * rewrite str_app_nil in E. symmetry.
        apply all_space_starts_clean; [|done].
        rewrite E in R1. cbn in R1. rewrite Hc, !all_space_app in R1.
        cbn in R1. destruct (all_space l2), (all_space s2); done.
      * rewrite str_app_cons in E. injection E as -> _.
        by rewrite (A1 c s1 eq_refl) in Hc.
  - cbn in L1. apply andb_prop in L1 as [Hc L1]. destruct l2 as [|c' l2].
    + rewrite str_app_nil, str_app_cons in E. destruct s2 as [|a s2].
      * rewrite str_app_nil in E.
        apply all_space_starts_clean; [|done].
        rewrite <- E in R2. cbn in R2. rewrite Hc, !all_space_app in R2.
        cbn in R2. destruct (all_space l1), (all_space s1); done.
      * rewrite str_app_cons in E. injection E as <- _.
        by rewrite (A2 c s2 eq_refl) in Hc.
    + rewrite !str_app_cons in E. injection E as <- E.
      cbn in L2. apply andb_prop in L2 as [_ L2]. by apply (IH L1 l2).
Qed.

Lemma strip_Forall2 (lines : list string) :
  Forall2 stripped_of lines (strip <$> lines).
Proof.
  induction lines as [|l lines IH]; [by constructor|].
  constructor; [apply strip_stripped|done].
Qed.

Lemma stripped_lines_unique (lines ls : list string) :
  Forall2 stripped_of lines ls → ls = strip <$> lines.
Proof.
  induction 1 as [|line s lines ls Hs _ IH]; [done|].
  cbn. f_equal; [|done]. by apply (stripped_unique line), strip_stripped.
Qed.

Lemma expected_yield_described (file_arg : list string)
    (reads : list (list string)) :
  described_yield file_arg reads (expected_yield file_arg reads).
Proof.
  revert reads. induction file_arg as [|x xs IH]; intros reads;
    [by constructor|].
  cbn [expected_yield]. destruct (decide (x = "-")) as [->|Hx].
  - apply described_stdin; [apply strip_Forall2|apply IH].
  - by apply described_arg.
Qed.

Lemma described_yield_unique (file_arg : list string)
    (reads : list (list string)) (ys : list string) :
  described_yield file_arg reads ys → ys = expected_yield file_arg reads.
Proof.
  induction 1 as [reads|x xs reads ys Hx _ IH|xs reads ls ys Hls _ IH].
  - done.
  - cbn [expected_yield]. rewrite decide_False by done. by rewrite IH.
  - cbn [expected_yield]. rewrite decide_True by done.
    by rewrite (stripped_lines_unique _ _ Hls), IH.
Qed.

(** C8. For every list of file arguments, the generator [enum_with_stdin]
    yields, in order, every argument other than ['-'] unchanged and, in place
    of every ['-'], the lines read from the standard input, each stripped of
    surrounding white space, in their input order; every ['-'] consumes one
    [readlines()] and nothing else of the world changes.  The list yielded
    is the one list that fits the description [described_yield], where the
    stripped line is the line between its leading and its trailing run of
    white space. *)
Theorem enum_with_stdin_yields (file_arg : list string) (w : World) :
  enum_to_list file_arg w
  = (Ok (expected_yield file_arg (stdin w)),
     mkWorld (files w) (drop (dash_count file_arg) (stdin w)) (stderr w)
             (opened w))
  ∧ described_yield file_arg (stdin w) (expected_yield file_arg (stdin w))
  ∧ (∀ ys, described_yield file_arg (stdin w) ys →
           ys = expected_yield file_arg (stdin w)).
Proof.
  split; [unfold enum_to_list; by rewrite enum_collect|].
  split; [apply expected_yield_described|].
  intros ys. apply described_yield_unique.
Qed.

(** ** [cli_update]: arguments refused before anything is written *)

Section UpdateRefusal.
Context {Archive Key : Type} {icns_api : IcnsFileAPI Archive Key}.

Lemma no_write_IcnsFile_open file : no_write (IcnsFile_open file).
Proof. unfold IcnsFile_open. auto with nowrite. Qed.

Lemma no_write_add_media_file (icns : Archive) key file force :
  no_write (add_media_file icns key file force).
Proof. unfold add_media_file. auto with nowrite. Qed.

Lemma no_write_update_rm_body (st : Archive * bool) x :
  no_write (update_rm_body st x).
Proof. unfold update_rm_body. auto with nowrite. Qed.

Lemma no_write_update_set_body (st : Archive * bool) key_val :
  no_write (update_set_body st key_val).
Proof.
  unfold update_set_body, fail.
  destruct (negb (char_in "=" key_val)); [auto with nowrite|].
  destruct (split "=" key_val) as [|k [|v [|? ?]]]; auto with nowrite.
  destruct (negb (truthy v)); [auto with nowrite|].
  apply no_write_bind; [auto with nowrite|]. intros isf.
  destruct (negb isf); [auto with nowrite|].
  apply no_write_bind; [auto with nowrite|]. intros k'.
  apply no_write_bind; [apply no_write_add_media_file|]. auto with nowrite.
Qed.

(** The body of the [-set] loop raises on an argument it must refuse. *)
Lemma update_set_body_refuses (st : Archive * bool) key_val w :
  bad_set_arg (files w) key_val →
  ∃ e, (update_set_body st key_val w).1 = Raise e.
Proof.
  unfold update_set_body, fail.
  intros [Hno|[[key ->]|(key & val & -> & Hval)]].
  - rewrite Hno. simpl. eauto.
  - change (key +:+ "=") with (key +:+ "=" +:+ EmptyString).
    change (key +:+ "=" +:+ EmptyString) with (key +:+ String "=" EmptyString)
      at 1.
    rewrite char_in_app_sep. cbn [negb].
    destruct (split "=" (key +:+ "=" +:+ EmptyString))
      as [|k [|v [|? ?]]] eqn:E; try (simpl; eauto; fail).
    apply split_key_val in E as [_ ->]. simpl. eauto.
  - change (key +:+ "=" +:+ val) with (key +:+ String "=" val) at 1.
    rewrite char_in_app_sep. cbn [negb].
    destruct (split "=" (key +:+ "=" +:+ val))
      as [|k [|v [|? ?]]] eqn:E; try (simpl; eauto; fail).
    apply split_key_val in E as [_ ->].
    destruct (negb (truthy val)); [simpl; eauto|].
    unfold bind, os_path_isfile. rewrite Hval.
    rewrite bool_decide_eq_false_2 by (by intros [? ?]). simpl. eauto.
Qed.

Lemma cli_update_refusal (args : UpdateArgs) (w : World) (key_val : string) :
  key_val ∈ list_or_nil (update_set args) →
  bad_set_arg (files w) key_val →
  ∃ e w', cli_update args w = (Raise e, w')
          ∧ files w' = files w ∧ opened w' = opened w.
Proof.
  intros Hin Hbad. unfold cli_update.
  pose proof (no_write_IcnsFile_open (update_file args) w) as [Hf0 Ho0].
  unfold bind at 1.
  destruct (IcnsFile_open (update_file args) w) as [[icns|e] w0];
    simpl in Hf0, Ho0; [|by eauto].
  pose proof (no_write_foldM update_rm_body (list_or_nil (update_rm args))
                (icns, false) no_write_update_rm_body w0) as [Hf1 Ho1].
  unfold bind at 1.
  destruct (foldM update_rm_body _ (icns, false) w0) as [[st|e] w1];
    simpl in Hf1, Ho1.
  2:{ exists e, w1. split; [done|split; congruence]. }
  pose proof (no_write_foldM update_set_body (list_or_nil (update_set args))
                st no_write_update_set_body w1) as [Hf2 Ho2].
  assert (∃ e, (foldM update_set_body (list_or_nil (update_set args)) st
                  w1).1 = Raise e) as [e He].
  { apply (foldM_raises update_set_body key_val _ (files w));
      [apply no_write_update_set_body|done| |congruence].
    intros b w' Hw'. apply update_set_body_refuses. by rewrite Hw'. }
  unfold bind.
  destruct (foldM update_set_body _ st w1) as [[st'|e'] w2];
    simpl in He, Hf2, Ho2; [done|].
  exists e', w2. split; [done|split; congruence].
Qed.

(** C3. Whenever some [-set] argument has no ['='], or nothing after the
    ['='], or names a path that is not an existing file, [cli_update]
    raises, and it does so before the write: the file store is the same
    afterwards and no path was opened for writing, whatever [-rm] and
    [-set] arguments were processed before. *)
Theorem cli_update_refuses_before_write (args : UpdateArgs) (w : World)
    (key_val : string) :
  key_val ∈ list_or_nil (update_set args) →
  bad_set_arg (files w) key_val →
  (∃ e, (cli_update args w).1 = Raise e)
  ∧ files (cli_update args w).2 = files w
  ∧ opened (cli_update args w).2 = opened w.
Proof.
  intros Hin Hbad.
  destruct (cli_update_refusal args w key_val Hin Hbad)
    as (e & w' & -> & Hf & Ho).
  simpl. eauto.
Qed.

End UpdateRefusal.

(** ** [cli_compose] *)

Section Compose.
Context {Archive Key : Type} {icns_api : IcnsFileAPI Archive Key}.

(** The loop of [cli_compose], as [cli_compose] runs it. *)
Local Notation "'build' srcs" :=
  (enum_with_stdin srcs (λ img x, add_media_file img None x false))
  (at level 10, srcs at level 9, only parsing).

Lemma add_all_app fs xs ys (a : Archive) :
  add_all fs (xs ++ ys) a
  = match add_all fs xs a with
    | Ok a' => add_all fs ys a'
    | Raise e => Raise e
    end.
Proof.
  revert a. induction xs as [|x xs IH]; intros a; simpl; [done|].
  destruct (fs !! x) as [d|]; [|done].
  by destruct (add_media a None x d false).
Qed.

(** Adding one file reads the store and changes nothing. *)
Lemma add_media_file_run (icns : Archive) key file force w :
  add_media_file icns key file force w
  = (match files w !! file with
     | Some d => add_media icns key file d force
     | None => Raise (FileNotFoundError file)
     end, w).
Proof.
  unfold add_media_file, bind, read_file, lift.
  by destruct (files w !! file).
Qed.

Lemma build_lines (lines : list string) (a : Archive) w :
  foldM (λ a line, add_media_file a None (strip line) false) lines a w
  = (add_all (files w) (strip <$> lines) a, w).
Proof.
  revert a. induction lines as [|l lines IH]; intros a; simpl; [done|].
  unfold bind. rewrite add_media_file_run.
  destruct (files w !! strip l) as [d|]; [|done].
  by destruct (add_media a None (strip l) d false).
Qed.

(** The loop of [cli_compose] adds what [enum_with_stdin] yields, in
    order, and touches nothing but the standard input. *)
Lemma build_run (srcs : list string) (a : Archive) w :
  ∃ w', build srcs a w
        = (add_all (files w) (expected_yield srcs (stdin w)) a, w')
    ∧ files w' = files w ∧ stderr w' = stderr w ∧ opened w' = opened w
    ∧ (∀ a', add_all (files w) (expected_yield srcs (stdin w)) a = Ok a' →
         stdin w' = drop (dash_count srcs) (stdin w)).
Proof.
  unfold enum_with_stdin.
  revert a w. induction srcs as [|x xs IH]; intros a w.
  - exists w. simpl. by rewrite drop_0.
  - cbn [foldM expected_yield]. unfold dash_count. rewrite filter_cons.
    destruct (decide (x = "-")) as [->|Hx].
    + cbn [String.eqb Ascii.eqb Bool.eqb]. unfold bind at 1 2, readlines.
      rewrite build_lines. cbn [files stdin stderr opened length].
      rewrite add_all_app.
      destruct (add_all (files w) (strip <$> hd [] (stdin w)) a) as [a1|e].
      2:{ eexists. split; [done|]. by simpl. }
      set (w1 := mkWorld (files w) (tl (stdin w)) (stderr w) (opened w)).
      destruct (IH a1 w1) as (w' & E1 & E2 & E3 & E4 & E5).
      exists w'. split; [exact E1|]. repeat split; try done.
      intros a' Ha'. rewrite (E5 a' Ha'). unfold dash_count, w1. simpl.
      destruct (stdin w); simpl; [by rewrite drop_nil|done].
    + apply String.eqb_neq in Hx as Hx'. rewrite Hx'.
      unfold bind. rewrite add_media_file_run. simpl.
      destruct (files w !! x) as [d|]; [|by exists w].
      destruct (add_media a None x d false) as [a1|e]; [|by exists w].
      apply IH.
Qed.

(** Writing an archive creates or replaces one file. *)
Lemma IcnsFile_write_run (icns : Archive) fname toc w :
  IcnsFile_write icns fname toc w
  = (Ok tt, mkWorld (<[fname := to_bytes icns toc]> (files w)) (stdin w)
                    (stderr w) (opened w ++ [fname])).
Proof.
  unfold IcnsFile_write, bind, open_wb, fp_write. simpl.
  by rewrite lookup_insert_eq, insert_insert_eq.
Qed.

(** What [cli_compose] does, by cases. *)
Lemma cli_compose_run (args : ComposeArgs) (w : World) :
  let dest := compose_dest (compose_target args) in
  let srcs := compose_source args in
  cli_compose args w =
    if negb (compose_force args) && bool_decide (is_Some (files w !! dest))
    then (Ok tt, mkWorld (files w) (stdin w)
                         (stderr w ++ [compose_exists_msg dest]) (opened w))
    else match add_all (files w) (expected_yield srcs (stdin w)) IcnsFile_new
         with
         | Ok img =>
             (Ok tt,
              mkWorld (<[dest := to_bytes img (negb (compose_no_toc args))]>
                         (files w))
                      (drop (dash_count srcs) (stdin w)) (stderr w)
                      (opened w ++ [dest]))
         | Raise e => (Raise e, (build srcs IcnsFile_new w).2)
         end.
Proof.
  intros dest srcs. unfold cli_compose. fold dest. fold srcs.
  destruct (build_run srcs IcnsFile_new w) as (w1 & E1 & E2 & E3 & E4 & E5).
  assert ((img <-- build srcs IcnsFile_new;;
           IcnsFile_write img dest (negb (compose_no_toc args))) w
          = match add_all (files w) (expected_yield srcs (stdin w))
                          IcnsFile_new with
            | Ok img =>
                (Ok tt,
                 mkWorld (<[dest := to_bytes img
                                      (negb (compose_no_toc args))]>
                            (files w))
                         (drop (dash_count srcs) (stdin w)) (stderr w)
                         (opened w ++ [dest]))
            | Raise e => (Raise e, (build srcs IcnsFile_new w).2)
            end) as Hrest.
  { unfold bind. rewrite E1.
    destruct (add_all _ _ _) as [img|e]; [|done].
    rewrite IcnsFile_write_run, E2, E3, E4, (E5 img eq_refl). done. }
  unfold bind at 1.
  destruct (compose_force args); cbn [negb andb].
  - unfold ret at 1. exact Hrest.
  - unfold os_path_exists at 1.
    destruct (bool_decide (is_Some (files w !! dest))); [done|].
    exact Hrest.
Qed.

(** C4. Without [--force], when the destination (with ['.icns'] appended if
    it had no extension) exists, [cli_compose] returns after a message on
    [stderr]: no source is read, nothing is opened for writing and the
    files are untouched.  With [--force], or when the destination does not
    exist, it adds every source that [enum_with_stdin] yields, in order,
    to a new archive and writes that archive to the destination; when the
    library raises while a source is added, the exception ends the command
    before the write. *)
Theorem cli_compose_guard (args : ComposeArgs) (w : World) :
  let dest := compose_dest (compose_target args) in
  let srcs := compose_source args in
  (compose_force args = false → is_Some (files w !! dest) →
   cli_compose args w
   = (Ok tt, mkWorld (files w) (stdin w)
                     (stderr w ++ [compose_exists_msg dest]) (opened w)))
  ∧ (compose_force args = true ∨ files w !! dest = None →
     match add_all (files w) (expected_yield srcs (stdin w)) IcnsFile_new
     with
     | Ok img =>
         cli_compose args w
         = (Ok tt,
            mkWorld (<[dest := to_bytes img (negb (compose_no_toc args))]>
                       (files w))
                    (drop (dash_count srcs) (stdin w)) (stderr w)
                    (opened w ++ [dest]))
     | Raise e =>
         (cli_compose args w).1 = Raise e
         ∧ files (cli_compose args w).2 = files w
         ∧ opened (cli_compose args w).2 = opened w
     end).
Proof.
  intros dest srcs. pose proof (cli_compose_run args w) as R.
  cbv zeta in R. fold dest srcs in R. split.
  - intros Hf Hex. rewrite R, Hf. cbn [negb andb].
    by rewrite bool_decide_eq_true_2.
  - intros Hcase.
    assert (negb (compose_force args)
            && bool_decide (is_Some (files w !! dest)) = false) as Hg.
    { destruct Hcase as [->|Hno]; [done|].
      rewrite Hno, bool_decide_eq_false_2 by (by intros [? ?]).
      by destruct (compose_force args). }
    rewrite Hg in R.
    destruct (build_run srcs IcnsFile_new w) as (w1 & E1 & E2 & _ & E4 & _).
    destruct (add_all _ _ _) as [img|e]; [done|].
    rewrite R, E1. simpl. done.
Qed.

Lemma compose_dest_cases (target : string) :
  compose_dest target
  = if decide ((splitext target).2 = EmptyString) then target +:+ ".icns"
    else target.
Proof.
  unfold compose_dest.
  destruct (decide ((splitext target).2 = EmptyString)) as [->|Hne]; [done|].
  by destruct (splitext target).2.
Qed.

(** C9. With [dest] the target with ['.icns'] appended when
    [os.path.splitext] gives it no extension, and the target itself when
    it has one: the destination-exists check is made on [dest] (without
    [--force] the command is refused exactly when [dest] exists, and the
    message names [dest]), and [dest] is the only path [cli_compose] opens
    for writing; it holds the archive when the command ends normally. *)
Theorem cli_compose_destination (args : ComposeArgs) (w : World) :
  let target := compose_target args in
  let dest := if decide ((splitext target).2 = EmptyString)
              then target +:+ ".icns" else target in
  (compose_force args = false → is_Some (files w !! dest) →
   cli_compose args w
   = (Ok tt, mkWorld (files w) (stdin w)
                     (stderr w ++ [compose_exists_msg dest]) (opened w)))
  ∧ (compose_force args = false → files w !! dest = None →
     stderr (cli_compose args w).2 = stderr w)
  ∧ (opened (cli_compose args w).2 = opened w
     ∨ opened (cli_compose args w).2 = opened w ++ [dest])
  ∧ (compose_force args = true ∨ files w !! dest = None →
     (cli_compose args w).1 = Ok tt →
     opened (cli_compose args w).2 = opened w ++ [dest]
     ∧ ∃ img, files (cli_compose args w).2
              = <[dest := to_bytes img (negb (compose_no_toc args))]>
                  (files w)).
Proof.
  intros target dest. pose proof (cli_compose_run args w) as R.
  cbv zeta in R. rewrite compose_dest_cases in R. fold target dest in R.
  destruct (build_run (compose_source args) IcnsFile_new w)
    as (w1 & E1 & E2 & E3 & E4 & _).
  rewrite E1 in R. cbn [snd] in R.
  split; [|split; [|split]].
  - intros Hf Hex. rewrite R, Hf. cbn [negb andb].
    by rewrite bool_decide_eq_true_2.
  - intros Hf Hno. rewrite R, Hf, Hno. cbn [negb andb].
    rewrite bool_decide_eq_false_2 by (by intros [? ?]).
    by destruct (add_all _ _ _).
  - rewrite R. destruct (_ && _); [by left|].
    destruct (add_all _ _ _); [by right|by left].
  - intros Hcase. rewrite R.
    assert (negb (compose_force args)
            && bool_decide (is_Some (files w !! dest)) = false) as ->.
    { destruct Hcase as [->|Hno]; [done|].
      rewrite Hno, bool_decide_eq_false_2 by (by intros [? ?]).
      by destruct (compose_force args). }
    destruct (add_all _ _ _) as [img|e]; [|done].
    intros _. simpl. eauto.
Qed.

End Compose.

(** ** [cli_convert] *)

Section Convert.
Context {Image : Type} {image_api : ArgbImageAPI Image}.

(** Loading the image reads files and changes nothing. *)
Lemma convert_load_world (args : ConvertArgs) w :
  (convert_load args w).2 = w.
Proof.
  unfold convert_load, ArgbImage_open, load_mask_file, bind, read_file, lift,
    ret.
  destruct (files w !! convert_source args) as [d|]; [|done]. simpl.
  destruct (ArgbImage_decode (convert_source args) d) as [img|e]; [|done].
  destruct (convert_mask args) as [m|]; [|done].
  destruct (truthy m); [|done].
  by destruct (files w !! m).
Qed.

Lemma convert_load_ok (args : ConvertArgs) w img :
  (convert_load args w).1 = Ok img → convert_load args w = (Ok img, w).
Proof.
  intros E. pose proof (convert_load_world args w) as Hw.
  destruct (convert_load args w) as [r w']. simpl in *. congruence.
Qed.

Lemma mask_path_fresh (dest : string) : dest +:+ ".mask" ≠ dest.
Proof.
  induction dest as [|c dest IH]; [done|].
  intros E. apply IH. by injection E.
Qed.

(** The run of the ['.rgb'] branch. *)
Lemma cli_convert_rgb_run (args : ConvertArgs) w img :
  (convert_load args w).1 = Ok img →
  (splitext (convert_dest args)).2 = ".rgb" →
  let dest := convert_dest args in
  cli_convert args w
  = (Ok tt,
     mkWorld (<[dest +:+ ".mask" := mask_data img]>
                (<[dest :=
                     (if negb (convert_raw args)
                         && bool_decide (size img = (128, 128))
                      then it32_header else []) ++ rgb_data img]>
                   (files w)))
             (stdin w) (stderr w) (opened w ++ [dest; dest +:+ ".mask"])).
Proof.
  intros Hload Hext dest. unfold cli_convert. fold dest.
  rewrite (bind_ok _ _ _ _ _ (convert_load_ok _ _ _ Hload)).
  fold dest in Hext. rewrite Hext. cbn [String.eqb Ascii.eqb Bool.eqb].
  unfold bind, open_wb, fp_write, ret.
  destruct (negb (convert_raw args) && bool_decide (size img = (128, 128)));
    cbn [files stdin stderr opened].
  - rewrite !lookup_insert_eq. cbn [default].
    rewrite !insert_insert_eq. rewrite <- app_assoc. by rewrite app_nil_l.
  - rewrite !lookup_insert_eq. cbn [default].
    rewrite !insert_insert_eq. rewrite <- app_assoc. by rewrite !app_nil_l.
Qed.

(** C2. Whenever the image loads and the destination has the extension
    ['.rgb'], [cli_convert] opens two files for writing, the destination
    and then the destination with ['.mask'] appended (another path); the
    first holds the RGB stream after an empty or four-zero-byte prefix, the
    second holds the mask stream. *)
Theorem cli_convert_rgb_two_files (args : ConvertArgs) (w : World)
    (img : Image) :
  (convert_load args w).1 = Ok img →
  (splitext (convert_dest args)).2 = ".rgb" →
  let dest := convert_dest args in
  dest +:+ ".mask" ≠ dest
  ∧ ∃ prefix, (prefix = [] ∨ prefix = [x00; x00; x00; x00])
    ∧ cli_convert args w
      = (Ok tt,
         mkWorld (<[dest +:+ ".mask" := mask_data img]>
                    (<[dest := prefix ++ rgb_data img]> (files w)))
                 (stdin w) (stderr w)
                 (opened w ++ [dest; dest +:+ ".mask"])).
Proof.
  intros Hload Hext dest. split; [apply mask_path_fresh|].
  rewrite (cli_convert_rgb_run args w img Hload Hext). fold dest.
  destruct (negb (convert_raw args) && bool_decide (size img = (128, 128)));
    eauto.
Qed.

(** C10. When the target is none of ['png'], ['argb'], ['rgb'] and its
    extension is none of ['.png'], ['.argb'], ['.rgb'], [cli_convert]
    writes nothing: the files are the same afterwards and no path was
    opened for writing; once the image is loaded, it prints the message on
    [stderr] and returns. *)
Theorem cli_convert_unknown_target (args : ConvertArgs) (w : World) :
  convert_target args ∉ ["png"; "argb"; "rgb"] →
  (splitext (convert_target args)).2 ∉ [".png"; ".argb"; ".rgb"] →
  files (cli_convert args w).2 = files w
  ∧ opened (cli_convert args w).2 = opened w
  ∧ (∀ img, (convert_load args w).1 = Ok img →
       cli_convert args w
       = (Ok tt, mkWorld (files w) (stdin w)
                   (stderr w ++ [convert_unknown_msg (convert_target args)])
                   (opened w))).
Proof.
  intros Htarget Hext.
  assert (convert_dest args = convert_target args) as Hdest.
  { unfold convert_dest. by rewrite bool_decide_eq_false_2. }
  assert (∀ img w',
    (let dest := convert_dest args in
     let ext := (splitext dest).2 in
     if String.eqb ext ".png" then write_png img dest
     else if String.eqb ext ".argb" then
       open_wb dest ;;; fp_write dest (argb_data img)
     else if String.eqb ext ".rgb" then
       open_wb dest ;;;
       (if negb (convert_raw args) && bool_decide (size img = (128, 128))
        then fp_write dest it32_header else ret tt) ;;;
       fp_write dest (rgb_data img) ;;;
       open_wb (dest +:+ ".mask") ;;;
       fp_write (dest +:+ ".mask") (mask_data img)
     else print_stderr (convert_unknown_msg dest)) w'
    = (Ok tt, mkWorld (files w') (stdin w')
                (stderr w' ++ [convert_unknown_msg (convert_target args)])
                (opened w'))) as Hrest.
  { intros img w'. cbv zeta. rewrite Hdest.
    destruct (String.eqb_spec (splitext (convert_target args)).2 ".png")
      as [E|_]; [rewrite E in Hext; set_solver|].
    destruct (String.eqb_spec (splitext (convert_target args)).2 ".argb")
      as [E|_]; [rewrite E in Hext; set_solver|].
    destruct (String.eqb_spec (splitext (convert_target args)).2 ".rgb")
      as [E|_]; [rewrite E in Hext; set_solver|].
    done. }
  unfold cli_convert, bind.
  pose proof (convert_load_world args w) as Hw.
  destruct (convert_load args w) as [[img|e] w']; simpl in Hw; subst w'.
  - rewrite Hrest. simpl. split; [done|split; [done|]].
    intros ? [= <-]. done.
  - simpl. split; [done|split; [done|]]. intros ? [=].
Qed.

End Convert.

(** ** [cli_convert] on the pixel buffer of the design document *)

Section ConvertPlanar.
Import SpecImage.
Variable decode : string → list byte → result PixelBuffer.
Variable with_mask : PixelBuffer → string → list byte → result PixelBuffer.
Variable png : PixelBuffer → list byte.
Variable argb : PixelBuffer → list byte.

#[local] Existing Instance SpecImage.api.

Local Abbreviation lib := (SpecImage.api decode with_mask png argb).

Lemma rgb_data_length (img : PixelBuffer) :
  length (SpecImage.rgb_data img) = (3 * length (pixels img))%nat.
Proof.
  unfold SpecImage.rgb_data. induction (pixels img) as [|p ps IH]; [done|].
  cbn [mbind list_bind]. rewrite length_app, IH. simpl. lia.
Qed.

(** C1. When the image loads and the destination has the extension
    ['.rgb'], the file written at the destination is the RGB data after
    exactly four zero bytes if [raw] is unset and the size of the image is
    (128, 128), and the RGB data alone if [raw] is set or the size is
    anything else.  Hence, for a 128x128 pixel buffer and [raw] unset, the
    file is 4 bytes longer than width x height x 3 and begins with four
    zero bytes. *)
Theorem cli_convert_rgb_prefix (args : ConvertArgs) (w : World)
    (img : PixelBuffer) :
  (convert_load (image_api := lib) args w).1 = Ok img →
  (splitext (convert_dest args)).2 = ".rgb" →
  let out :=
    files (cli_convert (image_api := lib) args w).2 !! convert_dest args
  in
  (convert_raw args = false ∧ (width img, height img) = (128, 128) →
   out = Some ([x00; x00; x00; x00] ++ SpecImage.rgb_data img))
  ∧ (convert_raw args = true ∨ (width img, height img) ≠ (128, 128) →
     out = Some (SpecImage.rgb_data img))
  ∧ (convert_raw args = false → (width img, height img) = (128, 128) →
     well_formed img →
     ∃ data, out = Some data
       ∧ Z.of_nat (length data) = width img * height img * 3 + 4
       ∧ take 4 data = [x00; x00; x00; x00]).
Proof.
  intros Hload Hext out. subst out.
  rewrite (cli_convert_rgb_run (image_api := lib) args w img Hload Hext).
  cbn [snd files size rgb_data mask_data SpecImage.api].
  rewrite lookup_insert_ne by apply mask_path_fresh.
  rewrite lookup_insert_eq.
  split; [|split].
  - intros [-> Hsize]. by rewrite bool_decide_eq_true_2.
  - intros [->|Hsize]; [done|].
    rewrite bool_decide_eq_false_2 by done. by rewrite andb_false_r.
  - intros -> Hsize (_ & _ & Hlen).
    rewrite bool_decide_eq_true_2 by done. cbn [negb andb].
    eexists. split; [done|]. split; [|done].
    rewrite length_app, rgb_data_length. simpl. lia.
Qed.

End ConvertPlanar.

(** ** [cli_update] on the archive of the design document *)

Section UpdateArchive.
Local Abbreviation Archive := SpecIcns.Archive.
Local Abbreviation mkArchive := SpecIcns.mkArchive.
Local Abbreviation entries := SpecIcns.entries.
Local Abbreviation toc := SpecIcns.toc.
Local Abbreviation find_tag := SpecIcns.find_tag.
Local Abbreviation registry_error := SpecIcns.registry_error.
Local Abbreviation registry_exn := SpecIcns.registry_exn.

Variable resolve :
  option string → string → list byte → registry_error + (string * list byte).
Variable parse : list byte → option Archive.
Variable serialize : Archive → bool → list byte.
Variable readable : string → registry_error + string.

Local Abbreviation lib := (SpecIcns.api resolve parse serialize readable).
Local Abbreviation rm_body := (update_rm_body (icns_api := lib)).
Local Abbreviation set_body := (update_set_body (icns_api := lib)).
Local Abbreviation update := (cli_update (icns_api := lib)).

(** *** The archive operations *)

Lemma find_tag_absent tag (es : list (string * list byte)) :
  tag ∉ es.*1 → find_tag tag es = None.
Proof.
  intros Hno. unfold SpecIcns.find_tag.
  destruct (list_find (λ e, e.1 = tag) es) as [[i e]|] eqn:E; [|done].
  apply list_find_Some in E as (Hi & He & _). exfalso. apply Hno.
  rewrite <- He. apply list_elem_of_fmap. exists e. split; [done|].
  by eapply list_elem_of_lookup_2.
Qed.


Lemma remove_media_absent (a : Archive) tag :
  tag ∉ (entries a).*1 → SpecIcns.remove_media a tag = (a, false).
Proof.
  intros Hno. unfold SpecIcns.remove_media. by rewrite find_tag_absent.
Qed.

Lemma remove_media_toc (a : Archive) tag :
  toc (SpecIcns.remove_media a tag).1 = toc a.
Proof.
  unfold SpecIcns.remove_media. by destruct (find_tag tag (entries a)).
Qed.

Lemma add_media_forced (a : Archive) key file data :
  SpecIcns.add_media resolve a key file data true
  = match resolve key file data with
    | inl e => Raise (registry_exn e)
    | inr (tag, payload) =>
        Ok (mkArchive (match find_tag tag (entries a) with
                       | Some i => <[i := (tag, payload)]> (entries a)
                       | None => entries a ++ [(tag, payload)]
                       end) (toc a))
    end.
Proof.
  unfold SpecIcns.add_media.
  destruct (resolve key file data) as [e|[tag payload]]; [done|].
  by destruct (find_tag tag (entries a)).
Qed.

(** *** The loops read and never write *)

Lemma read_only_bind {A B} (m : M A) (k : A → M B) :
  read_only m → (∀ a, read_only (k a)) → read_only (bind m k).
Proof.
  intros Hm Hk w. unfold bind. specialize (Hm w).
  destruct (m w) as [[a|e] w1]; simpl in *; subst; [apply Hk|done].
Qed.

Lemma read_only_read_file p : read_only (read_file p).
Proof. intros w. unfold read_file. by destruct (files w !! p). Qed.

Lemma read_only_rm_body st x : read_only (rm_body st x).
Proof.
  intros w. unfold update_rm_body, bind, lift, ret.
  by destruct (key_from_readable x).
Qed.

Lemma read_only_set_body st key_val : read_only (set_body st key_val).
Proof.
  intros w. unfold update_set_body, fail, raise.
  destruct (negb (char_in "=" key_val)); [done|].
  destruct (split "=" key_val) as [|k [|v [|? ?]]]; try done.
  destruct (negb (truthy v)); [done|].
  unfold bind, os_path_isfile.
  destruct (negb (bool_decide (is_Some (files w !! v)))); [done|].
  unfold lift. destruct (key_from_readable k) as [k'|e]; [|done].
  rewrite add_media_file_run.
  by destruct (match files w !! v with Some _ => _ | None => _ end).
Qed.

(** An invariant of the locals of a read-only loop. *)
Lemma foldM_read_only {A B} (body : B → A → M B) (P : B → Prop) xs :
  (∀ b x, read_only (body b x)) →
  (∀ b x w b', x ∈ xs → P b → (body b x w).1 = Ok b' → P b') →
  ∀ b w, P b →
    (foldM body xs b w).2 = w
    ∧ ∀ b', (foldM body xs b w).1 = Ok b' → P b'.
Proof.
  intros Hro. induction xs as [|x xs IH]; intros HP b w Hb; simpl.
  - split; [done|]. by intros b' [= <-].
  - unfold bind. pose proof (Hro b x w) as Hw.
    destruct (body b x w) as [[b1|e] w1] eqn:E; simpl in Hw; subst w1;
      [|done].
    apply IH.
    + intros b0 y w0 b0' Hy. apply HP. by right.
    + apply (HP b x w b1); [by left|done|by rewrite E].
Qed.

Lemma rm_body_toc st x w st' :
  (rm_body st x w).1 = Ok st' → toc st'.1 = toc st.1.
Proof.
  unfold update_rm_body, bind, lift, ret.
  destruct (key_from_readable x) as [k|e]; [|done].
  intros [= <-]. apply remove_media_toc.
Qed.

Lemma set_body_ok st key_val w st' :
  (set_body st key_val w).1 = Ok st' → toc st'.1 = toc st.1 ∧ st'.2 = true.
Proof.
  unfold update_set_body, fail, raise.
  destruct (negb (char_in "=" key_val)); [done|].
  destruct (split "=" key_val) as [|k [|v [|? ?]]]; try done.
  destruct (negb (truthy v)); [done|].
  unfold bind, os_path_isfile.
  destruct (negb (bool_decide (is_Some (files w !! v)))); [done|].
  unfold lift. destruct (key_from_readable k) as [k'|e]; [|done].
  rewrite add_media_file_run.
  destruct (files w !! v) as [d|]; [|done].
  cbn [add_media SpecIcns.api]. rewrite add_media_forced.
  destruct (resolve (Some k') v d) as [e|[tag payload]]; [done|].
  unfold ret. by intros [= <-].
Qed.

(** *** Reading the archive *)

Lemma IcnsFile_open_run file w :
  IcnsFile_open (icns_api := lib) file w
  = (match files w !! file with
     | None => Raise (FileNotFoundError file)
     | Some d => match parse d with
                 | Some a => Ok a
                 | None => Raise FormatError
                 end
     end, w).
Proof.
  unfold IcnsFile_open, bind, read_file, lift.
  destruct (files w !! file) as [d|]; [|done]. simpl.
  by destruct (parse d).
Qed.

(** *** No [DuplicateEntryError] *)






(** *** A well-formed [-set] argument *)



(** *** What [cli_update] writes *)

(** Either the world is left as it was, or one file is written: the
    serialization of an archive whose lookup-table flag is that of the
    archive read. *)
Lemma cli_update_run (args : UpdateArgs) (w : World) :
  (∃ r, update args w = (r, w))
  ∨ (∃ d a final,
       files w !! update_file args = Some d ∧ parse d = Some a
       ∧ toc final = toc a
       ∧ update args w
         = (Ok tt,
            mkWorld (<[str_or (update_output args) (update_file args)
                       := serialize final (toc a)]> (files w))
                    (stdin w) (stderr w)
                    (opened w
                     ++ [str_or (update_output args) (update_file args)]))).
Proof.
  remember (update args w) as res eqn:E. symmetry in E. revert E.
  unfold cli_update. unfold bind at 1. rewrite IcnsFile_open_run.
  destruct (files w !! update_file args) as [d|] eqn:Hd;
    [|intros <-; left; eauto].
  destruct (parse d) as [a|] eqn:Ha; [|intros <-; left; eauto].
  destruct (foldM_read_only rm_body (λ st, toc st.1 = toc a)
              (list_or_nil (update_rm args)) read_only_rm_body)
    with (b := (a, false)) (w := w) as [Hw1 Hst1]; [|done|].
  { intros b x w0 b' _ Hb E. rewrite <- Hb. by eapply rm_body_toc. }
  unfold bind at 1.
  destruct (foldM rm_body _ (a, false) w) as [[st1|e] w1];
    simpl in Hw1; subst w1; [|intros <-; left; eauto].
  specialize (Hst1 st1 eq_refl).
  destruct (foldM_read_only set_body (λ st, toc st.1 = toc a)
              (list_or_nil (update_set args)) read_only_set_body)
    with (b := st1) (w := w) as [Hw2 Hst2]; [|done|].
  { intros b x w0 b' _ Hb E. rewrite <- Hb. by eapply set_body_ok. }
  unfold bind at 1.
  destruct (foldM set_body _ st1 w) as [[st2|e] w2];
    simpl in Hw2; subst w2; [|intros <-; left; eauto].
  specialize (Hst2 st2 eq_refl).
  destruct (st2.2 || truthy_opt (update_output args));
    [|intros <-; left; eauto].
  rewrite IcnsFile_write_run. intros <-.
  right. exists d, a, st2.1.
  cbn [has_toc to_bytes SpecIcns.api]. unfold SpecIcns.has_toc.
  by rewrite Hst2.
Qed.

(** C6. Whenever [cli_update] writes (a path is opened for writing), what
    it writes is the serialization of the updated archive with the lookup
    table requested exactly when the archive that was read had one:
    [has_toc] of the updated archive, which the write call passes, is
    [has_toc] of the input archive. *)
Theorem cli_update_keeps_toc (args : UpdateArgs) (w : World) :
  opened (update args w).2 ≠ opened w →
  ∃ d a final,
    files w !! update_file args = Some d ∧ parse d = Some a
    ∧ SpecIcns.has_toc final = SpecIcns.has_toc a
    ∧ update args w
      = (Ok tt,
         mkWorld (<[str_or (update_output args) (update_file args)
                    := serialize final (SpecIcns.has_toc a)]> (files w))
                 (stdin w) (stderr w)
                 (opened w
                  ++ [str_or (update_output args) (update_file args)])).
Proof.
  intros Hopened.
  destruct (cli_update_run args w) as [[r E]|(d & a & final & H)].
  - rewrite E in Hopened. done.
  - exists d, a, final. exact H.
Qed.

(** C7. With no [-set] argument and no [--output], when every [-rm] key
    names a tag that is absent from the archive read, every
    [remove_media] answers false, the write is not reached, no path is
    opened for writing and the files are untouched. *)
Theorem cli_update_nothing_removed (args : UpdateArgs) (w : World)
    (d : list byte) (a : Archive) :
  update_set args = None →
  update_output args = None →
  files w !! update_file args = Some d →
  parse d = Some a →
  (∀ x tag, x ∈ list_or_nil (update_rm args) → readable x = inr tag →
            tag ∉ (entries a).*1) →
  (∀ x tag, x ∈ list_or_nil (update_rm args) → readable x = inr tag →
            SpecIcns.remove_media a tag = (a, false))
  ∧ opened (update args w).2 = opened w
  ∧ files (update args w).2 = files w.
Proof.
  intros Hset Hout Hd Ha Habsent.
  split.
  { intros x tag Hx Ht. apply remove_media_absent. by eapply Habsent. }
  enough (∃ r, update args w = (r, w)) as [r ->] by done.
  unfold cli_update. unfold bind at 1. rewrite IcnsFile_open_run, Hd, Ha.
  destruct (foldM_read_only rm_body (λ st, st = (a, false))
              (list_or_nil (update_rm args)) read_only_rm_body)
    with (b := (a, false)) (w := w) as [Hw1 Hst1]; [|done|].
  { intros b x w0 b' Hx -> E. revert E.
    unfold update_rm_body, bind, lift, ret.
    cbn [key_from_readable remove_media SpecIcns.api fst snd].
    destruct (readable x) as [e|tag] eqn:Ht; [done|].
    cbn [SpecIcns.of_registry].
    rewrite remove_media_absent by (by eapply Habsent).
    by intros [= <-]. }
  unfold bind at 1.
  destruct (foldM rm_body _ (a, false) w) as [[st1|e] w1];
    simpl in Hw1; subst w1; [|eauto].
  rewrite (Hst1 st1 eq_refl), Hset, Hout. simpl. eauto.
Qed.

End UpdateArchive.

(** * The theorems at work on the sample library *)

Lemma enum_with_stdin_yields_witness :
  let newline := String (ascii_of_nat 10) EmptyString in
  let tab := String (ascii_of_nat 9) EmptyString in
  let w := mkWorld ∅ [["  b.png " +:+ newline; tab +:+ "c d" +:+ newline]]
                   [] [] in
  enum_to_list ["a.png"; "-"; "e.png"] w
  = (Ok ["a.png"; "b.png"; "c d"; "e.png"], mkWorld ∅ [] [] [])
  ∧ described_yield ["a.png"; "-"; "e.png"] (stdin w)
      ["a.png"; "b.png"; "c d"; "e.png"].
Proof.
  intros newline tab w.
  destruct (enum_with_stdin_yields ["a.png"; "-"; "e.png"] w) as (H1 & H2 & _).
  split; [exact H1|exact H2].
Defined.

Lemma cli_update_refuses_before_write_witness :
  let args := mkUpdateArgs "a.icns" None None (Some ["ic07"]) in
  "ic07" ∈ list_or_nil (update_set args)
  ∧ bad_set_arg (files Sample.world) "ic07"
  ∧ (∃ e, (cli_update (icns_api := Sample.icns) args Sample.world).1 = Raise e)
  ∧ files (cli_update (icns_api := Sample.icns) args Sample.world).2
    = files Sample.world
  ∧ opened (cli_update (icns_api := Sample.icns) args Sample.world).2
    = opened Sample.world.
Proof.
  intros args.
  assert ("ic07" ∈ list_or_nil (update_set args)) as H1 by (by left).
  assert (bad_set_arg (files Sample.world) "ic07") as H2
    by (left; reflexivity).
  split; [exact H1|]. split; [exact H2|].
  exact (cli_update_refuses_before_write (icns_api := Sample.icns)
           args Sample.world "ic07" H1 H2).
Defined.

Lemma cli_compose_guard_witness :
  let args := mkComposeArgs "a" false false ["b.png"] in
  let forced := mkComposeArgs "a" true false ["b.png"] in
  compose_force args = false
  ∧ is_Some (files Sample.world !! "a.icns")
  ∧ cli_compose (icns_api := Sample.icns) args Sample.world
    = (Ok tt, mkWorld (files Sample.world) (stdin Sample.world)
                      [compose_exists_msg "a.icns"] [])
  ∧ compose_force forced = true
  ∧ cli_compose (icns_api := Sample.icns) forced Sample.world
    = (Ok tt, mkWorld (<["a.icns" := [x01; x02]]> (files Sample.world))
                      (stdin Sample.world) [] ["a.icns"]).
Proof.
  intros args forced.
  assert (compose_force args = false) as H1 by reflexivity.
  assert (is_Some (files Sample.world !! "a.icns")) as H2
    by (eexists; reflexivity).
  assert (compose_force forced = true) as H3 by reflexivity.
  split; [exact H1|]. split; [exact H2|].
  split; [exact (proj1 (cli_compose_guard (icns_api := Sample.icns)
                          args Sample.world) H1 H2)|].
  split; [exact H3|].
  exact (proj2 (cli_compose_guard (icns_api := Sample.icns)
                  forced Sample.world) (or_introl H3)).
Defined.

Lemma cli_compose_destination_witness :
  let args := mkComposeArgs "a" false false ["b.png"] in
  compose_force args = false
  ∧ is_Some (files Sample.world !! "a.icns")
  ∧ cli_compose (icns_api := Sample.icns) args Sample.world
    = (Ok tt, mkWorld (files Sample.world) (stdin Sample.world)
                      [compose_exists_msg "a.icns"] []).
Proof.
  intros args.
  assert (compose_force args = false) as H1 by reflexivity.
  assert (is_Some (files Sample.world !! "a.icns")) as H2
    by (eexists; reflexivity).
  split; [exact H1|]. split; [exact H2|].
  exact (proj1 (cli_compose_destination (icns_api := Sample.icns)
                  args Sample.world) H1 H2).
Defined.

Lemma cli_convert_rgb_two_files_witness :
  let args := mkConvertArgs true "rgb" "b.png" None in
  (convert_load (image_api := Sample.image) args Sample.world).1
  = Ok Sample.icon128
  ∧ (splitext (convert_dest args)).2 = ".rgb"
  ∧ "b.png.rgb.mask" ≠ "b.png.rgb"
  ∧ ∃ prefix, (prefix = [] ∨ prefix = [x00; x00; x00; x00])
    ∧ cli_convert (image_api := Sample.image) args Sample.world
      = (Ok tt,
         mkWorld (<["b.png.rgb.mask" := SpecImage.mask_data Sample.icon128]>
                    (<["b.png.rgb"
                       := prefix ++ SpecImage.rgb_data Sample.icon128]>
                       (files Sample.world)))
                 (stdin Sample.world) [] ["b.png.rgb"; "b.png.rgb.mask"]).
Proof.
  intros args.
  assert ((convert_load (image_api := Sample.image) args Sample.world).1
          = Ok Sample.icon128) as H1 by reflexivity.
  assert ((splitext (convert_dest args)).2 = ".rgb") as H2 by reflexivity.
  split; [exact H1|]. split; [exact H2|].
  exact (cli_convert_rgb_two_files (image_api := Sample.image)
           args Sample.world Sample.icon128 H1 H2).
Defined.

Lemma cli_convert_unknown_target_witness :
  let args := mkConvertArgs false "out.txt" "b.png" None in
  (convert_target args ∉ ["png"; "argb"; "rgb"])
  ∧ ((splitext (convert_target args)).2 ∉ [".png"; ".argb"; ".rgb"])
  ∧ (convert_load (image_api := Sample.image) args Sample.world).1
    = Ok Sample.icon128
  ∧ cli_convert (image_api := Sample.image) args Sample.world
    = (Ok tt, mkWorld (files Sample.world) (stdin Sample.world)
                      [convert_unknown_msg "out.txt"] []).
Proof.
  intros args.
  assert (convert_target args ∉ ["png"; "argb"; "rgb"]) as H1
    by (apply (bool_decide_eq_false_1 _); reflexivity).
  assert ((splitext (convert_target args)).2 ∉ [".png"; ".argb"; ".rgb"])
    as H2 by (apply (bool_decide_eq_false_1 _); reflexivity).
  assert ((convert_load (image_api := Sample.image) args Sample.world).1
          = Ok Sample.icon128) as H3 by reflexivity.
  split; [exact H1|]. split; [exact H2|]. split; [exact H3|].
  exact (proj2 (proj2 (cli_convert_unknown_target (image_api := Sample.image)
                         args Sample.world H1 H2)) Sample.icon128 H3).
Defined.

Lemma cli_convert_rgb_prefix_witness :
  let args := mkConvertArgs false "rgb" "b.png" None in
  let out :=
    (files (cli_convert (image_api := Sample.image) args Sample.world).2
       !! "b.png.rgb") in
  ((convert_load (image_api := Sample.image) args Sample.world).1
   = Ok Sample.icon128)
  ∧ (splitext (convert_dest args)).2 = ".rgb"
  ∧ convert_raw args = false
  ∧ (SpecImage.width Sample.icon128, SpecImage.height Sample.icon128)
    = (128, 128)
  ∧ SpecImage.well_formed Sample.icon128
  ∧ out = Some ([x00; x00; x00; x00] ++ SpecImage.rgb_data Sample.icon128)
  ∧ ∃ data, out = Some data
      ∧ Z.of_nat (length data) = 128 * 128 * 3 + 4
      ∧ take 4 data = [x00; x00; x00; x00].
Proof.
  intros args out.
  assert ((convert_load (image_api := Sample.image) args Sample.world).1
          = Ok Sample.icon128) as H1 by reflexivity.
  assert ((splitext (convert_dest args)).2 = ".rgb") as H2 by reflexivity.
  assert (convert_raw args = false) as H3 by reflexivity.
  assert ((SpecImage.width Sample.icon128, SpecImage.height Sample.icon128)
          = (128, 128)) as H4 by reflexivity.
  assert (SpecImage.well_formed Sample.icon128) as H5
    by (split; [reflexivity|split; [reflexivity|vm_compute; reflexivity]]).
  pose proof (cli_convert_rgb_prefix Sample.decode Sample.with_mask
                Sample.png Sample.argb args Sample.world Sample.icon128
                H1 H2) as (P1 & _ & P3).
  split; [exact H1|]. split; [exact H2|]. split; [exact H3|].
  split; [exact H4|]. split; [exact H5|].
  split; [exact (P1 (conj H3 H4))|exact (P3 H3 H4 H5)].
Defined.


Lemma cli_update_keeps_toc_witness :
  let args := mkUpdateArgs "a.icns" None None (Some ["ic08=b.png"]) in
  opened (cli_update (icns_api := Sample.icns) args Sample.world).2
  ≠ opened Sample.world
  ∧ ∃ d a final,
      files Sample.world !! "a.icns" = Some d ∧ Sample.parse d = Some a
      ∧ SpecIcns.has_toc final = SpecIcns.has_toc a
      ∧ cli_update (icns_api := Sample.icns) args Sample.world
        = (Ok tt,
           mkWorld (<["a.icns"
                      := Sample.serialize final (SpecIcns.has_toc a)]>
                      (files Sample.world))
                   (stdin Sample.world) [] ["a.icns"]).
Proof.
  intros args.
  assert (opened (cli_update (icns_api := Sample.icns) args Sample.world).2
          ≠ opened Sample.world) as H1 by (vm_compute; discriminate).
  split; [exact H1|].
  exact (cli_update_keeps_toc Sample.resolve Sample.parse Sample.serialize
           Sample.readable args Sample.world H1).
Defined.

Lemma cli_update_nothing_removed_witness :
  let args := mkUpdateArgs "a.icns" None (Some ["ic08"]) None in
  let a := SpecIcns.mkArchive [("ic07", [x01])] true in
  update_set args = None
  ∧ update_output args = None
  ∧ files Sample.world !! update_file args = Some [x01]
  ∧ Sample.parse [x01] = Some a
  ∧ (∀ x tag, x ∈ list_or_nil (update_rm args) →
              Sample.readable x = inr tag → tag ∉ (SpecIcns.entries a).*1)
  ∧ opened (cli_update (icns_api := Sample.icns) args Sample.world).2
    = opened Sample.world
  ∧ files (cli_update (icns_api := Sample.icns) args Sample.world).2
    = files Sample.world.
Proof.
  intros args a.
  assert (update_set args = None) as H1 by reflexivity.
  assert (update_output args = None) as H2 by reflexivity.
  assert (files Sample.world !! update_file args = Some [x01]) as H3
    by reflexivity.
  assert (Sample.parse [x01] = Some a) as H4 by reflexivity.
  assert (∀ x tag, x ∈ list_or_nil (update_rm args) →
                   Sample.readable x = inr tag →
                   tag ∉ (SpecIcns.entries a).*1) as H5.
  { intros x tag Hx [= <-]. simpl in Hx. apply list_elem_of_singleton in Hx.
    subst x. apply (bool_decide_eq_false_1 _). reflexivity. }
  repeat (split; [assumption|]).
  exact (proj2 (cli_update_nothing_removed Sample.resolve Sample.parse
                  Sample.serialize Sample.readable args Sample.world [x01] a
                  H1 H2 H3 H4 H5)).
Defined.

(** * Further properties *)

(** ** [enum_with_stdin] as a list *)

Lemma foldM_app {A B} (body : B → A → M B) (xs ys : list A) (b : B) w :
  foldM body (xs ++ ys) b w = bind (foldM body xs b) (foldM body ys) w.
Proof.
  revert b w. induction xs as [|x xs IH]; intros b w; [reflexivity|].
  cbn [app foldM]. unfold bind at 1 2 3.
  destruct (body b x w) as [[b1|e] w1]; [|reflexivity]. by rewrite IH.
Qed.

Lemma foldM_fmap {A B C} (f : A → C) (body : B → C → M B) (xs : list A) b w :
  foldM (λ b x, body b (f x)) xs b w = foldM body (f <$> xs) b w.
Proof.
  revert b w. induction xs as [|x xs IH]; intros b w; [done|].
  cbn [fmap list_fmap foldM]. unfold bind.
  destruct (body b (f x) w) as [[b1|e] w1]; [|done]. apply IH.
Qed.

Lemma set_stdin_same w : set_stdin (stdin w) w = w.
Proof. by destruct w. Qed.

Lemma oblivious_stdin {A} (body : A → string → M A) a y w :
  stdin_oblivious body → stdin (body a y w).2 = stdin w.
Proof.
  intros Hb. specialize (Hb a y w (stdin w)). rewrite set_stdin_same in Hb.
  destruct (body a y w) as [r w1]. simpl in *. by injection Hb as ->.
Qed.

Lemma oblivious_foldM {A} (body : A → string → M A) (l : list string) a w s :
  stdin_oblivious body →
  foldM body l a (set_stdin s w)
  = ((foldM body l a w).1, set_stdin s (foldM body l a w).2).
Proof.
  intros Hb. revert a w. induction l as [|y l IH]; intros a w; [done|].
  cbn [foldM]. unfold bind. rewrite Hb.
  destruct (body a y w) as [[a1|e] w1]; [|done]. simpl. apply IH.
Qed.

Lemma foldM_oblivious_stdin {A} (body : A → string → M A) l a w :
  stdin_oblivious body → stdin (foldM body l a w).2 = stdin w.
Proof.
  intros Hb. pose proof (oblivious_foldM body l a w (stdin w) Hb) as E.
  rewrite set_stdin_same in E.
  destruct (foldM body l a w) as [r w1]. simpl in *. by injection E as ->.
Qed.

Lemma enum_eager {A} (body : A → string → M A) (file_arg : list string) a w :
  stdin_oblivious body →
  ∃ w', enum_with_stdin file_arg body a w
        = ((foldM body (expected_yield file_arg (stdin w)) a w).1, w')
    ∧ same_but_stdin w' (foldM body (expected_yield file_arg (stdin w)) a w).2
    ∧ (∀ a', (foldM body (expected_yield file_arg (stdin w)) a w).1 = Ok a' →
         stdin w' = drop (dash_count file_arg) (stdin w)).
Proof.
  intros Hb. unfold enum_with_stdin.
  revert a w. induction file_arg as [|x xs IH]; intros a w.
  - exists w. simpl. by rewrite drop_0.
  - cbn [foldM expected_yield]. unfold dash_count. rewrite filter_cons.
    destruct (decide (x = "-")) as [->|Hx].
    + cbn [String.eqb Ascii.eqb Bool.eqb]. unfold bind at 1 2, readlines.
      rewrite foldM_fmap.
      change (mkWorld (files w) (tl (stdin w)) (stderr w) (opened w))
        with (set_stdin (tl (stdin w)) w).
      rewrite (oblivious_foldM body _ a w _ Hb), !foldM_app.
      unfold bind at 2 3 4.
      pose proof (foldM_oblivious_stdin body (strip <$> hd [] (stdin w)) a w Hb)
        as Hs.
      destruct (foldM body (strip <$> hd [] (stdin w)) a w) as [[a1|e] w1];
        cbn [fst snd] in *.
      2:{ eexists. split; [done|]. split; [by destruct w1|done]. }
      destruct (IH a1 (set_stdin (tl (stdin w)) w1))
        as (w' & E1 & (F1 & F2 & F3) & E3).
      cbn [stdin set_stdin] in E1, F1, F2, F3, E3.
      rewrite (oblivious_foldM body _ a1 w1 _ Hb) in E1, F1, F2, F3, E3.
      cbn [fst snd files stderr opened set_stdin] in E1, F1, F2, F3, E3.
      exists w'. split; [exact E1|]. split; [done|].
      intros a' Ha'. rewrite (E3 a' Ha'). cbn [length].
      destruct (stdin w); simpl; [by rewrite drop_nil|done].
    + apply String.eqb_neq in Hx as Hx'. rewrite Hx'.
      cbn [app foldM]. unfold bind.
      pose proof (oblivious_stdin body a x w Hb) as Hs.
      destruct (body a x w) as [[a1|e] w1]; cbn [snd] in Hs.
      2:{ by exists w1. }
      rewrite <- Hs. apply IH.
Qed.

(** X1. A consumer that neither reads nor changes the standard input gets
    from the generator exactly what it would get from the list of the
    arguments with every ['-'] expanded beforehand: the same result, the same
    files, [stderr] and opened paths; and when it ends normally the standard
    input has lost one [readlines()] per ['-']. *)
Theorem enum_with_stdin_eager {A} (body : A → string → M A)
    (file_arg : list string) (a : A) (w : World) :
  stdin_oblivious body →
  (enum_with_stdin file_arg body a w).1
  = (foldM body (expected_yield file_arg (stdin w)) a w).1
  ∧ same_but_stdin (enum_with_stdin file_arg body a w).2
                   (foldM body (expected_yield file_arg (stdin w)) a w).2
  ∧ (∀ a', (enum_with_stdin file_arg body a w).1 = Ok a' →
       stdin (enum_with_stdin file_arg body a w).2
       = drop (dash_count file_arg) (stdin w)).
Proof.
  intros Hb. destruct (enum_eager body file_arg a w Hb) as (w' & -> & H1 & H2).
  cbn [fst snd]. split; [done|]. split; [done|]. exact H2.
Qed.

(** X2. Iterating over the arguments [xs ++ ys] is iterating over [xs] and
    then, from the locals and the world reached, over [ys]; an exception in
    the first part ends the whole. *)
Theorem enum_with_stdin_app {A} (body : A → string → M A)
    (xs ys : list string) (a : A) (w : World) :
  enum_with_stdin (xs ++ ys) body a w
  = bind (enum_with_stdin xs body a) (enum_with_stdin ys body) w.
Proof. unfold enum_with_stdin. apply foldM_app. Qed.

(** X3. Without a ['-'] among the arguments, the standard input is never
    read: the consumer, whatever it does, runs over the arguments
    themselves. *)
Theorem enum_with_stdin_no_dash {A} (body : A → string → M A)
    (file_arg : list string) (a : A) (w : World) :
  "-" ∉ file_arg →
  enum_with_stdin file_arg body a w = foldM body file_arg a w.
Proof.
  unfold enum_with_stdin. revert a w.
  induction file_arg as [|x xs IH]; intros a w Hno; [done|].
  apply not_elem_of_cons in Hno as [Hx Hxs].
  cbn [foldM]. apply not_eq_sym, String.eqb_neq in Hx. rewrite Hx.
  unfold bind. destruct (body a x w) as [[a1|e] w1]; [|done]. by apply IH.
Qed.

(** ** [os.path.splitext] on a path that ends in a plain extension *)

Lemma rfind_from_app c (s t : string) i last :
  rfind_from c (s +:+ t) i last
  = rfind_from c t (i + Z.of_nat (String.length s)) (rfind_from c s i last).
Proof.
  revert i last. induction s as [|x s IH]; intros i last.
  - rewrite str_app_nil. cbn. f_equal. lia.
  - rewrite str_app_cons. cbn [rfind_from String.length]. rewrite IH.
    f_equal. lia.
Qed.

Lemma rfind_from_absent c (s : string) i last :
  char_in c s = false → rfind_from c s i last = last.
Proof.
  revert i. induction s as [|x s IH]; intros i; [done|].
  cbn [char_in rfind_from]. destruct (Ascii.eqb x c); [done|]. apply IH.
Qed.

Lemma rfind_from_bound c (s : string) i last :
  last < i →
  last ≤ rfind_from c s i last < i + Z.of_nat (String.length s)
  ∨ (s = EmptyString ∧ rfind_from c s i last = last).
Proof.
  revert i last. induction s as [|x s IH]; intros i last Hlt; [by right|].
  left. cbn [rfind_from String.length].
  destruct (IH (i + 1) (if Ascii.eqb x c then i else last)) as [H|[-> H]].
  - destruct (Ascii.eqb x c); lia.
  - destruct (Ascii.eqb x c); lia.
  - rewrite H. cbn. destruct (Ascii.eqb x c); lia.
Qed.

Lemma rfind_range c (s : string) :
  -1 ≤ rfind c s < Z.of_nat (String.length s).
Proof.
  unfold rfind. destruct (rfind_from_bound c s 0 (-1)) as [H|[-> H]];
    [lia|lia|]. rewrite H. cbn. lia.
Qed.

Lemma char_in_app c (s t : string) :
  char_in c (s +:+ t) = char_in c s || char_in c t.
Proof.
  induction s as [|x s IH]; [done|].
  rewrite str_app_cons. cbn [char_in]. by destruct (Ascii.eqb x c).
Qed.

Lemma str_length_app (s t : string) :
  String.length (s +:+ t) = (String.length s + String.length t)%nat.
Proof.
  induction s as [|x s IH]; [done|].
  rewrite str_app_cons. cbn. by rewrite IH.
Qed.

Lemma str_take_app (s t : string) : str_take (String.length s) (s +:+ t) = s.
Proof.
  induction s as [|x s IH]; [by destruct t|].
  rewrite str_app_cons. cbn. by rewrite IH.
Qed.

Lemma str_drop_app (s t : string) : str_drop (String.length s) (s +:+ t) = t.
Proof.
  induction s as [|x s IH]; [by destruct t|].
  rewrite str_app_cons. cbn. by rewrite IH.
Qed.

Lemma str_drop_app_le (n : nat) (s t : string) :
  (n ≤ String.length s)%nat → str_drop n (s +:+ t) = str_drop n s +:+ t.
Proof.
  revert s. induction n as [|n IH]; intros s Hn.
  - by destruct s, t.
  - destruct s as [|x s]; [cbn in Hn; lia|].
    rewrite str_app_cons. cbn. apply IH. cbn in Hn. lia.
Qed.

Lemma str_drop_length (n : nat) (s : string) :
  String.length (str_drop n s) = (String.length s - n)%nat.
Proof.
  revert s. induction n as [|n IH]; intros s.
  - destruct s; cbn; lia.
  - destruct s as [|x s]; [done|]. cbn. apply IH.
Qed.

Lemma str_app_assoc (s t u : string) : (s +:+ t) +:+ u = s +:+ t +:+ u.
Proof.
  induction s as [|x s IH]; [done|].
  rewrite !str_app_cons. by rewrite IH.
Qed.

Lemma has_non_dot_app (s : string) c (t : string) :
  c ≠ "."%char → has_non_dot (s +:+ String c t) = true.
Proof.
  intros Hc. induction s as [|x s IH].
  - rewrite str_app_nil. cbn. by apply Ascii.eqb_neq in Hc as ->.
  - rewrite str_app_cons. cbn. by destruct (Ascii.eqb x ".").
Qed.

(** Appending ['.'] and an extension [e] without ['.'] or ['/'] to a path with
    a proper last component gives a path that splits there. *)
Lemma splitext_plain_extension (p e : string) :
  proper_name p →
  char_in "." e = false → char_in "/" e = false →
  splitext (p +:+ "." +:+ e) = (p, "." +:+ e).
Proof.
  intros (a & c & b & -> & Hdot & Hsep & Hb) He1 He2.
  set (p := a +:+ String c b).
  assert (rfind "." (p +:+ "." +:+ e) = Z.of_nat (String.length p)) as Hd.
  { unfold rfind. rewrite rfind_from_app.
    change ("." +:+ e) with (String "." e). cbn [rfind_from].
    rewrite Ascii.eqb_refl. rewrite rfind_from_absent by done. lia. }
  assert (rfind "/" (p +:+ "." +:+ e) = rfind "/" a) as Hs.
  { unfold rfind, p. rewrite str_app_assoc, rfind_from_app.
    apply rfind_from_absent.
    change (String c b +:+ "." +:+ e) with (String c (b +:+ String "." e)).
    cbn [char_in]. apply Ascii.eqb_neq in Hsep as ->.
    rewrite char_in_app, Hb. cbn [orb char_in]. by rewrite He2. }
  pose proof (rfind_range "/" a) as Hr.
  assert (String.length p = (String.length a + S (String.length b))%nat)
    as Hlen by (unfold p; by rewrite str_length_app).
  unfold splitext. rewrite Hd, Hs.
  assert ((Z.of_nat (String.length p) >? rfind "/" a) = true) as ->
    by (apply Z.gtb_lt; lia).
  rewrite Nat2Z.id, str_take_app, str_drop_app.
  set (k := Z.to_nat (rfind "/" a + 1)).
  assert (k ≤ String.length a)%nat as Hk by (unfold k; lia).
  assert (str_drop k (p +:+ "." +:+ e)
          = (str_drop k a +:+ String c b) +:+ "." +:+ e) as ->.
  { unfold p. rewrite !str_app_assoc. by apply str_drop_app_le. }
  assert (Z.to_nat (Z.of_nat (String.length p) - (rfind "/" a + 1))
          = String.length (str_drop k a +:+ String c b)) as ->.
  { rewrite str_length_app, str_drop_length. cbn [String.length]. lia. }
  rewrite str_take_app, has_non_dot_app by done. done.
Qed.

(** ** The destination of [cli_compose] *)

(** X4. For a target whose last component has a character other than a dot,
    the destination of [cli_compose] always has an extension, which is
    ['.icns'] when the target had none; so computing the destination of a
    destination changes nothing. *)
Theorem compose_dest_extension (target : string) :
  proper_name target →
  (splitext (compose_dest target)).2 ≠ EmptyString
  ∧ ((splitext target).2 = EmptyString →
     splitext (compose_dest target) = (target, ".icns"))
  ∧ compose_dest (compose_dest target) = compose_dest target.
Proof.
  intros Hp.
  assert (splitext (target +:+ ".icns") = (target, ".icns")) as Hicns
    by (by apply (splitext_plain_extension target "icns")).
  unfold compose_dest at 1 2 4 5.
  destruct (splitext target).2 as [|c ext] eqn:E; cbn [truthy negb].
  - rewrite Hicns. split; [done|]. split; [done|].
    unfold compose_dest. by rewrite Hicns.
  - rewrite E. split; [done|]. split; [done|].
    unfold compose_dest. by rewrite E.
Qed.

(** ** [cli_convert], branch by branch *)

Section ConvertBranches.
Context {Image : Type} {image_api : ArgbImageAPI Image}.

Lemma convert_load_raise (args : ConvertArgs) w e :
  (convert_load args w).1 = Raise e → convert_load args w = (Raise e, w).
Proof.
  intros E. pose proof (convert_load_world args w) as Hw.
  destruct (convert_load args w) as [r w']. simpl in *. congruence.
Qed.

(** What [cli_convert] returns and leaves, by cases on the image and on the
    extension of the destination. *)
Lemma cli_convert_cases (args : ConvertArgs) (w : World) :
  let dest := convert_dest args in
  let ext := (splitext dest).2 in
  cli_convert args w
  = match (convert_load args w).1 with
    | Raise e => (Raise e, w)
    | Ok img =>
        if String.eqb ext ".png" then
          (Ok tt, mkWorld (<[dest := png_data img]> (files w)) (stdin w)
                          (stderr w) (opened w ++ [dest]))
        else if String.eqb ext ".argb" then
          (Ok tt, mkWorld (<[dest := argb_data img]> (files w)) (stdin w)
                          (stderr w) (opened w ++ [dest]))
        else if String.eqb ext ".rgb" then
          (Ok tt,
           mkWorld (<[dest +:+ ".mask" := mask_data img]>
                      (<[dest :=
                           (if negb (convert_raw args)
                               && bool_decide (size img = (128, 128))
                            then it32_header else []) ++ rgb_data img]>
                         (files w)))
                   (stdin w) (stderr w)
                   (opened w ++ [dest; dest +:+ ".mask"]))
        else
          (Ok tt, mkWorld (files w) (stdin w)
                          (stderr w ++ [convert_unknown_msg dest]) (opened w))
    end.
Proof.
  intros dest ext.
  destruct (convert_load args w).1 as [img|e] eqn:Hload.
  - destruct (String.eqb ext ".png") eqn:Epng;
      [|destruct (String.eqb ext ".argb") eqn:Eargb;
        [|destruct (String.eqb ext ".rgb") eqn:Ergb]].
    + unfold cli_convert. fold dest ext.
      rewrite (bind_ok _ _ _ _ _ (convert_load_ok _ _ _ Hload)), Epng.
      unfold write_png, bind, open_wb, fp_write. cbn [files stdin stderr opened].
      by rewrite lookup_insert_eq, insert_insert_eq.
    + unfold cli_convert. fold dest ext.
      rewrite (bind_ok _ _ _ _ _ (convert_load_ok _ _ _ Hload)), Epng, Eargb.
      unfold bind, open_wb, fp_write. cbn [files stdin stderr opened].
      by rewrite lookup_insert_eq, insert_insert_eq.
    + apply String.eqb_eq in Ergb.
      apply (cli_convert_rgb_run args w img Hload Ergb).
    + unfold cli_convert. fold dest ext.
      rewrite (bind_ok _ _ _ _ _ (convert_load_ok _ _ _ Hload)).
      by rewrite Epng, Eargb, Ergb.
  - unfold cli_convert.
    by rewrite (bind_raise _ _ _ _ _ (convert_load_raise _ _ _ Hload)).
Qed.

Lemma str_app_fresh (s t : string) : t ≠ EmptyString → s +:+ t ≠ s.
Proof.
  intros Ht. induction s as [|c s IH]; [by rewrite str_app_nil|].
  rewrite str_app_cons. intros E. apply IH. by injection E.
Qed.

(** X5. [cli_convert] changes no file other than the destination and, for
    an ['.rgb'] destination, the destination with ['.mask'] appended; it
    does not read the standard input; and the paths it opens for writing
    are none, the destination, or the destination and then its mask. *)
Theorem cli_convert_frame (args : ConvertArgs) (w : World) :
  let dest := convert_dest args in
  (∀ p, p ≠ dest → p ≠ dest +:+ ".mask" →
        files (cli_convert args w).2 !! p = files w !! p)
  ∧ stdin (cli_convert args w).2 = stdin w
  ∧ (opened (cli_convert args w).2 = opened w
     ∨ opened (cli_convert args w).2 = opened w ++ [dest]
     ∨ opened (cli_convert args w).2 = opened w ++ [dest; dest +:+ ".mask"]).
Proof.
  intros dest. rewrite (cli_convert_cases args w). fold dest.
  destruct (convert_load args w).1 as [img|e]; [|by auto].
  destruct (String.eqb _ ".png").
  { split; [|by auto]. intros p Hp _. cbn. by rewrite lookup_insert_ne. }
  destruct (String.eqb _ ".argb").
  { split; [|by auto]. intros p Hp _. cbn. by rewrite lookup_insert_ne. }
  destruct (String.eqb _ ".rgb"); [|by auto].
  split; [|by auto]. intros p Hp Hm. cbn. by rewrite !lookup_insert_ne.
Qed.

(** X6. When the target is one of the words ['png'], ['argb'], ['rgb'], the
    source file is never modified: the destination is the source path with
    a suffix, and so is the mask path. *)
Theorem cli_convert_keyword_keeps_source (args : ConvertArgs) (w : World) :
  convert_target args ∈ ["png"; "argb"; "rgb"] →
  files (cli_convert args w).2 !! convert_source args
  = files w !! convert_source args.
Proof.
  intros Hkw.
  assert (convert_dest args
          = convert_source args +:+ "." +:+ convert_target args) as Hdest.
  { unfold convert_dest. by rewrite bool_decide_eq_true_2. }
  apply (proj1 (cli_convert_frame args w)); rewrite Hdest.
  - apply not_eq_sym, str_app_fresh. done.
  - rewrite str_app_assoc. apply not_eq_sym, str_app_fresh.
    by destruct (convert_target args).
Qed.

(** X7. When the target is one of the words ['png'], ['argb'], ['rgb'] and
    the last component of the source path has a character other than a dot,
    the destination is the source path followed by a dot and the word, and
    its extension is the dot and the word: the word selects the format. *)
Theorem cli_convert_keyword_extension (args : ConvertArgs) :
  convert_target args ∈ ["png"; "argb"; "rgb"] →
  proper_name (convert_source args) →
  convert_dest args = convert_source args +:+ "." +:+ convert_target args
  ∧ splitext (convert_dest args)
    = (convert_source args, "." +:+ convert_target args).
Proof.
  intros Hkw Hp.
  assert (convert_dest args
          = convert_source args +:+ "." +:+ convert_target args) as Hdest.
  { unfold convert_dest. by rewrite bool_decide_eq_true_2. }
  split; [done|]. rewrite Hdest.
  apply splitext_plain_extension; [done| |];
    repeat (apply elem_of_cons in Hkw as [->|Hkw]; [reflexivity|]);
    by apply elem_of_nil in Hkw.
Qed.

(** X8. For a ['.png'] or ['.argb'] destination and an image that loads,
    [cli_convert] writes one file, the destination, holding the PNG or the
    ARGB bytes of the image, and no mask file. *)
Theorem cli_convert_single_file (args : ConvertArgs) (w : World)
    (img : Image) :
  (convert_load args w).1 = Ok img →
  (splitext (convert_dest args)).2 = ".png"
  ∨ (splitext (convert_dest args)).2 = ".argb" →
  let dest := convert_dest args in
  cli_convert args w
  = (Ok tt,
     mkWorld (<[dest := if decide ((splitext dest).2 = ".png")
                        then png_data img else argb_data img]> (files w))
             (stdin w) (stderr w) (opened w ++ [dest])).
Proof.
  intros Hload Hext dest. rewrite (cli_convert_cases args w), Hload.
  fold dest. fold dest in Hext. destruct Hext as [E|E]; rewrite E; done.
Qed.

(** X9. [--raw] matters only for an ['.rgb'] destination and a 128x128
    image: for any other destination, or any other image size, the command
    does the same with and without it. *)
Theorem cli_convert_raw_irrelevant (args : ConvertArgs) (raw : bool)
    (w : World) :
  (splitext (convert_dest args)).2 ≠ ".rgb"
  ∨ (∀ img, (convert_load args w).1 = Ok img → size img ≠ (128, 128)) →
  cli_convert (with_raw raw args) w = cli_convert args w.
Proof.
  intros Hcase. rewrite !cli_convert_cases.
  change (convert_load (with_raw raw args) w) with (convert_load args w).
  change (convert_dest (with_raw raw args)) with (convert_dest args).
  destruct (convert_load args w).1 as [img|e]; [|done].
  destruct (String.eqb _ ".png"); [done|].
  destruct (String.eqb _ ".argb"); [done|].
  destruct (String.eqb_spec (splitext (convert_dest args)).2 ".rgb")
    as [E|_]; [|done].
  destruct Hcase as [Hne|Hsize]; [done|].
  rewrite bool_decide_eq_false_2 by (by apply Hsize).
  by rewrite !andb_false_r.
Qed.

End ConvertBranches.

(** ** [cli_update], whatever the library *)

Section UpdateGeneric.
Context {Archive Key : Type} {icns_api : IcnsFileAPI Archive Key}.

Lemma bind_assoc {A B C} (m : M A) (f : A → M B) (g : B → M C) w :
  bind (bind m f) g w = bind m (λ x, bind (f x) g) w.
Proof. unfold bind. by destruct (m w) as [[a|e] w1]. Qed.

Lemma bind_ext {A B} (m : M A) (f g : A → M B) w :
  (∀ a w', f a w' = g a w') → bind m f w = bind m g w.
Proof. intros E. unfold bind. destruct (m w) as [[a|e] w1]; [apply E|done]. Qed.

Lemma IcnsFile_open_read_only file : read_only (IcnsFile_open file).
Proof.
  intros w. unfold IcnsFile_open, bind, read_file, lift.
  by destruct (files w !! file).
Qed.

Lemma update_rm_body_read_only (st : Archive * bool) x :
  read_only (update_rm_body st x).
Proof.
  intros w. unfold update_rm_body, bind, lift, ret.
  by destruct (key_from_readable x).
Qed.

Lemma update_set_body_read_only (st : Archive * bool) key_val :
  read_only (update_set_body st key_val).
Proof.
  intros w. unfold update_set_body, fail, raise.
  destruct (negb (char_in "=" key_val)); [done|].
  destruct (split "=" key_val) as [|k [|v [|? ?]]]; try done.
  destruct (negb (truthy v)); [done|].
  unfold bind, os_path_isfile.
  destruct (negb (bool_decide (is_Some (files w !! v)))); [done|].
  unfold lift. destruct (key_from_readable k) as [k'|e]; [|done].
  rewrite add_media_file_run.
  by destruct (match files w !! v with Some _ => _ | None => _ end).
Qed.

Lemma update_set_body_flag (st st' : Archive * bool) key_val w :
  (update_set_body st key_val w).1 = Ok st' → st'.2 = true.
Proof.
  unfold update_set_body, fail, raise.
  destruct (negb (char_in "=" key_val)); [done|].
  destruct (split "=" key_val) as [|k [|v [|? ?]]]; try done.
  destruct (negb (truthy v)); [done|].
  unfold bind, os_path_isfile.
  destruct (negb (bool_decide (is_Some (files w !! v)))); [done|].
  unfold lift. destruct (key_from_readable k) as [k'|e]; [|done].
  rewrite add_media_file_run.
  destruct (match files w !! v with Some _ => _ | None => _ end); [|done].
  unfold ret. by intros [= <-].
Qed.

Lemma update_locals_read_only (args : UpdateArgs) :
  read_only (update_locals args).
Proof.
  intros w. unfold update_locals. unfold bind at 1.
  pose proof (IcnsFile_open_read_only (update_file args) w) as H0.
  destruct (IcnsFile_open (update_file args) w) as [[icns|e] w0];
    simpl in H0; subst w0; [|done].
  unfold bind.
  destruct (foldM_read_only update_rm_body (λ _, True)
              (list_or_nil (update_rm args)) update_rm_body_read_only)
    with (b := (icns, false)) (w := w) as [H1 _]; [done|done|].
  destruct (foldM update_rm_body _ (icns, false) w) as [[st|e] w1];
    simpl in H1; subst w1; [|done].
  by destruct (foldM_read_only update_set_body (λ _, True)
                 (list_or_nil (update_set args)) update_set_body_read_only)
    with (b := st) (w := w) as [H2 _].
Qed.

(** What [cli_update] returns and leaves, by cases on the locals. *)
Lemma cli_update_cases (args : UpdateArgs) (w : World) :
  let out := str_or (update_output args) (update_file args) in
  cli_update args w
  = match (update_locals args w).1 with
    | Raise e => (Raise e, w)
    | Ok st =>
        if st.2 || truthy_opt (update_output args) then
          (Ok tt, mkWorld (<[out := to_bytes st.1 (has_toc st.1)]> (files w))
                          (stdin w) (stderr w) (opened w ++ [out]))
        else (Ok tt, w)
    end.
Proof.
  intros out.
  assert (cli_update args w
          = bind (update_locals args)
              (λ st, if st.2 || truthy_opt (update_output args) then
                       IcnsFile_write st.1 out (has_toc st.1)
                     else ret tt) w) as ->.
  { unfold cli_update, update_locals. fold out.
    rewrite bind_assoc. apply bind_ext. intros icns w0.
    by rewrite bind_assoc. }
  pose proof (update_locals_read_only args w) as Hw. unfold bind.
  destruct (update_locals args w) as [[st|e] w']; simpl in Hw; subst w';
    cbn [fst]; [|done].
  destruct (st.2 || truthy_opt (update_output args)); [|done].
  apply IcnsFile_write_run.
Qed.

(** X10. [cli_update] changes no file other than the one it writes, which is
    the [--output] path when one is given and the input path otherwise; it
    opens that path for writing at most once, and leaves [stdin] and
    [stderr] alone. *)
Theorem cli_update_frame (args : UpdateArgs) (w : World) :
  let out := str_or (update_output args) (update_file args) in
  (∀ p, p ≠ out → files (cli_update args w).2 !! p = files w !! p)
  ∧ stdin (cli_update args w).2 = stdin w
  ∧ stderr (cli_update args w).2 = stderr w
  ∧ (opened (cli_update args w).2 = opened w
     ∨ opened (cli_update args w).2 = opened w ++ [out]).
Proof.
  intros out. rewrite (cli_update_cases args w). fold out.
  destruct (update_locals args w).1 as [st|e]; [|by auto].
  destruct (st.2 || truthy_opt (update_output args)); [|by auto].
  split; [|by auto]. intros p Hp. cbn. by rewrite lookup_insert_ne.
Qed.

(** X11. With [--output OUT], [OUT] not empty and not the input path, the
    input file is never modified. *)
Theorem cli_update_output_keeps_input (args : UpdateArgs) (w : World)
    (out : string) :
  update_output args = Some out →
  out ≠ EmptyString →
  out ≠ update_file args →
  files (cli_update args w).2 !! update_file args
  = files w !! update_file args.
Proof.
  intros Hout Hne Hfile.
  apply (proj1 (cli_update_frame args w)).
  rewrite Hout. cbn. destruct out; [done|]. cbn. done.
Qed.

Lemma foldM_set_flag xs (st st' : Archive * bool) w :
  xs ≠ [] →
  (foldM update_set_body xs st w).1 = Ok st' → st'.2 = true.
Proof.
  destruct xs as [|x xs]; [done|]. intros _. cbn [foldM]. unfold bind.
  pose proof (update_set_body_read_only st x w) as Hw.
  pose proof (update_set_body_flag st) as Hflag.
  destruct (update_set_body st x w) as [[st1|e] w1] eqn:E;
    simpl in Hw; subst w1; [|done].
  specialize (Hflag st1 x w). rewrite E in Hflag.
  destruct (foldM_read_only update_set_body (λ s, s.2 = true) xs
              update_set_body_read_only)
    with (b := st1) (w := w) as [_ H]; [|by apply Hflag|by apply H].
  intros b y w0 b' _ _. apply update_set_body_flag.
Qed.

(** X12. When at least one [-set] argument is given and [cli_update] ends
    normally, the archive was written, once, to the [--output] path or else
    to the input path, with the lookup table as [has_toc] answers on the
    archive written. *)
Theorem cli_update_set_writes (args : UpdateArgs) (w : World) :
  list_or_nil (update_set args) ≠ [] →
  (cli_update args w).1 = Ok tt →
  let out := str_or (update_output args) (update_file args) in
  ∃ icns,
    cli_update args w
    = (Ok tt, mkWorld (<[out := to_bytes icns (has_toc icns)]> (files w))
                      (stdin w) (stderr w) (opened w ++ [out])).
Proof.
  intros Hset Hok out. revert Hok. rewrite (cli_update_cases args w).
  fold out. destruct (update_locals args w).1 as [st|e] eqn:E; [|done].
  assert (st.2 = true) as ->.
  { revert E. unfold update_locals. unfold bind at 1.
    destruct (IcnsFile_open (update_file args) w) as [[icns|e] w0]; [|done].
    unfold bind.
    destruct (foldM update_rm_body _ (icns, false) w0) as [[st0|e] w1];
      [|done].
    by apply foldM_set_flag. }
  intros _. cbn [orb]. eauto.
Qed.

Lemma split_length c s : (1 ≤ length (split c s))%nat.
Proof.
  pose proof (split_nonempty c s). destruct (split c s); [done|]. cbn. lia.
Qed.

(** The exception of the [-set] loop body on an ill-formed argument. *)
Lemma update_set_body_errors (st : Archive * bool) w :
  (∀ key_val, char_in "=" key_val = false →
     update_set_body st key_val w
     = (Raise (ArgumentTypeError
                 ("Expected arg format KEY=FILE - got " +:+ quoted key_val)),
        w))
  ∧ (∀ k v r,
       update_set_body st (k +:+ "=" +:+ v +:+ "=" +:+ r) w
       = (Raise ValueError, w))
  ∧ (∀ k, char_in "=" k = false →
       update_set_body st (k +:+ "=") w
       = (Raise (ArgumentTypeError
                   ("Expected arg format KEY=FILE - got "
                    +:+ quoted (k +:+ "="))), w))
  ∧ (∀ k v, char_in "=" k = false → char_in "=" v = false →
       v ≠ EmptyString → files w !! v = None →
       update_set_body st (k +:+ "=" +:+ v) w
       = (Raise (ArgumentTypeError ("File does not exist " +:+ quoted v)),
          w)).
Proof.
  split; [|split; [|split]].
  - intros key_val Hno. unfold update_set_body. by rewrite Hno.
  - intros k v r. unfold update_set_body.
    change (k +:+ "=" +:+ v +:+ "=" +:+ r)
      with (k +:+ String "=" (v +:+ String "=" r)).
    rewrite char_in_app_sep, !split_app_sep. cbn [negb].
    pose proof (split_length "=" k). pose proof (split_length "=" v).
    pose proof (split_length "=" r).
    destruct (split "=" k ++ split "=" v ++ split "=" r)
      as [|a [|b [|c l]]] eqn:E; try done;
      apply (f_equal length) in E; rewrite !length_app in E; cbn in E; lia.
  - intros k Hk. unfold update_set_body.
    change (k +:+ "=") with (k +:+ String "=" EmptyString) at 1 2.
    rewrite char_in_app_sep, split_app_sep, (split_no_sep _ _ Hk). done.
  - intros k v Hk Hv Hne Hfile. unfold update_set_body.
    change (k +:+ "=" +:+ v) with (k +:+ String "=" v).
    rewrite char_in_app_sep, split_app_sep.
    rewrite (split_no_sep _ _ Hk), (split_no_sep _ _ Hv).
    cbn [negb app]. destruct v as [|c v]; [done|]. cbn [truthy negb].
    unfold bind, os_path_isfile. rewrite Hfile.
    by rewrite bool_decide_eq_false_2 by (by intros [? ?]).
Qed.

(** X13. With an input archive that parses, no [-rm] argument and a first
    [-set] argument that is ill-formed, [cli_update] ends with the exception
    of that argument and the world as it was: [ArgumentTypeError] naming the
    argument when it has no ['='] or nothing after its only ['='],
    [ValueError] when it has two ['='] or more (whatever the files), and
    [ArgumentTypeError] naming the file when [KEY=FILE] gives a missing
    file. *)
Theorem cli_update_first_set_error (args : UpdateArgs) (w : World)
    (d : list byte) (icns : Archive) (key_val : string) (rest : list string) :
  files w !! update_file args = Some d →
  IcnsFile_parse d = Ok icns →
  list_or_nil (update_rm args) = [] →
  list_or_nil (update_set args) = key_val :: rest →
  (char_in "=" key_val = false →
   cli_update args w
   = (Raise (ArgumentTypeError
               ("Expected arg format KEY=FILE - got " +:+ quoted key_val)),
      w))
  ∧ (∀ k v r, key_val = k +:+ "=" +:+ v +:+ "=" +:+ r →
       cli_update args w = (Raise ValueError, w))
  ∧ (∀ k, char_in "=" k = false → key_val = k +:+ "=" →
       cli_update args w
       = (Raise (ArgumentTypeError
                   ("Expected arg format KEY=FILE - got " +:+ quoted key_val)),
          w))
  ∧ (∀ k v, char_in "=" k = false → char_in "=" v = false →
       v ≠ EmptyString → files w !! v = None → key_val = k +:+ "=" +:+ v →
       cli_update args w
       = (Raise (ArgumentTypeError ("File does not exist " +:+ quoted v)),
          w)).
Proof.
  intros Hd Hparse Hrm Hset.
  assert (∀ e, update_set_body (icns, false) key_val w = (Raise e, w) →
               cli_update args w = (Raise e, w)) as Hfirst.
  { intros e He. rewrite (cli_update_cases args w).
    unfold update_locals, IcnsFile_open, bind at 1 2, read_file, lift.
    rewrite Hd, Hparse, Hrm, Hset. cbn [foldM]. unfold bind, ret.
    by rewrite He. }
  destruct (update_set_body_errors (icns, false) w) as (E1 & E2 & E3 & E4).
  split; [|split; [|split]].
  - intros Hno. by apply Hfirst, E1.
  - intros k v r ->. apply Hfirst, E2.
  - intros k Hk ->. by apply Hfirst, E3.
  - intros k v Hk Hv Hne Hfile ->. by apply Hfirst, E4.
Qed.

End UpdateGeneric.

(** ** The commands that print *)

Section ReportProperties.
Context {report_api : IcnsReportAPI}.

(** A loop body that, on every file of [ys], only prints [rep] of the file,
    makes the loop over the generator print the reports of all the files
    yielded, in order, and consume one [readlines()] per ['-']. *)
Lemma foldMC_report (body : unit → string → MC unit)
    (rep : string → list string) (fs : gmap string (list byte))
    (ys : list string) (c : Console) :
  files (world c) = fs →
  (∀ y c', y ∈ ys → files (world c') = fs →
           body tt y c' = (Ok tt, mkConsole (world c') (stdout c' ++ rep y))) →
  foldMC body ys tt c
  = (Ok tt, mkConsole (world c) (stdout c ++ concat (rep <$> ys))).
Proof.
  revert c. induction ys as [|y ys IH]; intros c Hfs Hbody.
  - cbn. rewrite app_nil_r. by destruct c.
  - cbn [foldMC fmap list_fmap concat]. unfold bindC.
    rewrite (Hbody y c) by (done || by left).
    rewrite IH; cbn [world stdout]; [|done|].
    + by rewrite <- app_assoc.
    + intros y' c' Hy'. apply Hbody. by right.
Qed.

Lemma enum_console_report (body : unit → string → MC unit)
    (rep : string → list string) (fs : gmap string (list byte))
    (file_arg : list string) (c : Console) :
  files (world c) = fs →
  (∀ y c', y ∈ expected_yield file_arg (stdin (world c)) →
           files (world c') = fs →
           body tt y c' = (Ok tt, mkConsole (world c') (stdout c' ++ rep y))) →
  enum_with_stdin_console file_arg body tt c
  = (Ok tt,
     mkConsole (set_stdin (drop (dash_count file_arg) (stdin (world c)))
                          (world c))
               (stdout c
                ++ concat (rep <$> expected_yield file_arg (stdin (world c))))).
Proof.
  unfold enum_with_stdin_console.
  revert c. induction file_arg as [|x xs IH]; intros c Hfs Hbody.
  - cbn. rewrite app_nil_r. unfold set_stdin. rewrite world_eta.
    by destruct c.
  - cbn [foldMC expected_yield] in *. unfold dash_count.
    rewrite filter_cons. destruct (decide (x = "-")) as [->|Hx].
    + cbn [String.eqb Ascii.eqb Bool.eqb]. unfold bindC at 1 2.
      unfold liftC at 1, readlines. cbn [fst snd].
      set (c1 := mkConsole _ (stdout c)).
      assert (foldMC (λ a line, body a (strip line)) (hd [] (stdin (world c)))
                tt c1
              = foldMC body (strip <$> hd [] (stdin (world c))) tt c1) as ->.
      { generalize (hd [] (stdin (world c))) c1. clear.
        intros l. induction l as [|y l IHl]; intros c1; [done|].
        cbn [foldMC fmap list_fmap]. unfold bindC.
        destruct (body tt (strip y) c1) as [[[]|e] c2]; [apply IHl|done]. }
      rewrite (foldMC_report body rep fs); [|done|].
      2:{ intros y c' Hy. apply Hbody. apply elem_of_app. by left. }
      rewrite IH; cbn [world stdout stdin files c1]; [|done|].
      * rewrite fmap_app, concat_app, <- !app_assoc. unfold set_stdin.
        cbn [files stdin stderr opened length]. do 3 f_equal.
        destruct (stdin (world c)); simpl; [by rewrite drop_nil|done].
      * intros y c' Hy. apply Hbody. apply elem_of_app. by right.
    + apply String.eqb_neq in Hx as Hx'. rewrite Hx'. unfold bindC.
      rewrite (Hbody x c) by (done || by left).
      rewrite IH; cbn [world stdout]; [|done|].
      * by rewrite <- app_assoc.
      * intros y c' Hy. apply Hbody. by right.
Qed.

(** The loop over the issues prints the header once if it was not printed
    yet, then one line per issue. *)
Lemma verify_issues_run (fname : string) (issues : list string)
    (is_valid : option bool) (c : Console) :
  foldMC (verify_issue fname) issues is_valid c
  = (Ok (match issues with [] => is_valid | _ => Some false end),
     mkConsole (world c)
       (stdout c
        ++ (match issues, is_valid with
            | _ :: _, Some true => ["File: " +:+ fname]
            | _, _ => []
            end)
        ++ ((λ issue, "  " +:+ issue) <$> issues))).
Proof.
  revert is_valid c. induction issues as [|i l IH]; intros is_valid c.
  - cbn. rewrite app_nil_r. by destruct c.
  - cbn [foldMC]. unfold bindC at 1, verify_issue at 1.
    unfold bindC at 1 2, print2, print, retC.
    destruct is_valid as [[]|]; cbn [world stdout]; rewrite IH;
      cbn [world stdout fmap list_fmap]; f_equal;
      (try by destruct l); f_equal; destruct l;
      by rewrite <- ?app_assoc.
Qed.

(** One file of [cli_verify]. *)
Lemma verify_body_run (args : VerifyArgs) (fname : string) (d : list byte)
    (c : Console) :
  files (world c) !! fname = Some d →
  (verify fname d).2 = None →
  verify_body args fname c
  = (Ok tt,
     mkConsole (world c)
       (stdout c ++ verify_report (verify_quiet args) fname (verify fname d).1)).
Proof.
  intros Hd Hnone. unfold verify_body, verify_report.
  destruct (verify_quiet args); cbn [negb andb].
  - unfold bindC at 1, retC at 1. unfold bindC at 1, liftC, read_file.
    rewrite Hd. cbn [fst snd world stdout]. unfold bindC at 1.
    rewrite verify_issues_run, Hnone. cbn [world stdout].
    unfold bindC, retC.
    destruct (verify fname d).1; cbn; by rewrite ?app_nil_r.
  - unfold bindC at 1 2, print2, print, retC at 1.
    unfold bindC at 1, liftC, read_file. cbn [world stdout].
    rewrite Hd. cbn [fst snd world stdout]. unfold bindC at 1.
    rewrite verify_issues_run, Hnone. cbn [world stdout].
    unfold bindC, retC.
    destruct (verify fname d).1 as [|i l]; cbn [bool_decide negb fmap list_fmap].
    + rewrite bool_decide_eq_false_2 by done.
      rewrite bool_decide_eq_true_2 by done. cbn.
      by rewrite <- !app_assoc.
    + rewrite bool_decide_eq_true_2 by done.
      rewrite bool_decide_eq_false_2 by done. cbn.
      by rewrite <- !app_assoc, app_nil_r.
Qed.

(** X14. When every file that [enum_with_stdin] yields exists and its
    verification ends without an exception, [cli_verify] returns normally
    having printed, for each file in order: the line [File: name] (always
    when not quiet, and only if there is an issue when quiet), one line per
    issue, and [OK] when not quiet and there is no issue.  A sound file
    prints nothing in quiet mode.  Nothing but the standard input and the
    standard output changes. *)
Theorem cli_verify_report (args : VerifyArgs) (c : Console) :
  let ys := expected_yield (verify_file args) (stdin (world c)) in
  (∀ y, y ∈ ys → ∃ d, files (world c) !! y = Some d ∧ (verify y d).2 = None) →
  cli_verify args c
  = (Ok tt,
     mkConsole (set_stdin (drop (dash_count (verify_file args))
                                (stdin (world c))) (world c))
               (stdout c
                ++ concat ((λ y, verify_report (verify_quiet args) y
                                   (file_issues (files (world c)) y))
                           <$> ys))).
Proof.
  intros ys Hys. unfold cli_verify.
  apply (enum_console_report _ _ (files (world c))); [done|].
  intros y c' Hy Hfs. destruct (Hys y Hy) as (d & Hd & Hnone).
  unfold file_issues. rewrite Hd.
  apply verify_body_run; [by rewrite Hfs|done].
Qed.

(** X15. When every file that [enum_with_stdin] yields exists and has a
    description, [cli_print] returns normally having printed, for each file
    in order, the line [File: name] and then the description; nothing but
    the standard input and the standard output changes. *)
Theorem cli_print_report (args : PrintArgs) (c : Console) :
  let ys := expected_yield (print_file args) (stdin (world c)) in
  (∀ y, y ∈ ys →
        ∃ d text, files (world c) !! y = Some d
                  ∧ description y d (print_verbose args) 2 = Ok text) →
  cli_print args c
  = (Ok tt,
     mkConsole (set_stdin (drop (dash_count (print_file args))
                                (stdin (world c))) (world c))
               (stdout c
                ++ concat (print_report (print_verbose args)
                                        (files (world c)) <$> ys))).
Proof.
  intros ys Hys. unfold cli_print.
  apply (enum_console_report _ _ (files (world c))); [done|].
  intros y c' Hy Hfs. destruct (Hys y Hy) as (d & text & Hd & Htext).
  unfold print_report. rewrite Hd, Htext.
  unfold bindC at 1, print2, print. unfold bindC at 1, liftC at 1, read_file.
  cbn [world stdout]. rewrite Hfs, Hd. cbn [fst snd world stdout].
  unfold bindC, liftC, lift. rewrite Htext. cbn [fst snd world stdout].
  by rewrite <- app_assoc.
Qed.

End ReportProperties.

(** The two embeddings of the generator agree on a consumer that does not
    print. *)
Lemma enum_with_stdin_console_lift {A} (body : A → string → M A)
    (file_arg : list string) (a : A) (c : Console) :
  enum_with_stdin_console file_arg (λ a y, liftC (body a y)) a c
  = liftC (enum_with_stdin file_arg body a) c.
Proof.
  assert (∀ (l : list string) (f : string → string) a c,
            foldMC (λ a y, liftC (body a (f y))) l a c
            = liftC (foldM (λ a y, body a (f y)) l a) c) as Hfold.
  { intros l f. induction l as [|y l IH]; intros a0 c0.
    - unfold liftC. cbn. by destruct c0.
    - cbn [foldMC foldM]. unfold bindC, bind, liftC at 1 3.
      destruct (body a0 (f y) (world c0)) as [[a1|e] w1]; cbn [fst snd];
        [|done].
      rewrite IH. unfold liftC. done. }
  unfold enum_with_stdin_console, enum_with_stdin.
  revert a c. induction file_arg as [|x xs IH]; intros a c.
  - unfold liftC. cbn. by destruct c.
  - set (stepC := λ a x, if String.eqb x "-" then
                           lines <~~ liftC readlines ;;
                           foldMC (λ a line, liftC (body a (strip line)))
                                  lines a
                         else liftC (body a x)) in *.
    set (stepM := λ a x, if String.eqb x "-" then
                           lines <-- readlines ;;
                           foldM (λ a line, body a (strip line)) lines a
                         else body a x) in *.
    cbn [foldMC foldM].
    assert (stepC a x c = liftC (stepM a x) c) as Hstep.
    { unfold stepC, stepM. destruct (String.eqb x "-"); [|done].
      unfold bindC, bind, liftC at 1, readlines. cbn [fst snd].
      rewrite (Hfold _ strip). done. }
    unfold bindC. rewrite Hstep. unfold liftC at 1 2, bind.
    destruct (stepM a x (world c)) as [[a1|e] w1]; cbn [fst snd]; [|done].
    rewrite IH. done.
Qed.

(** ** [cli_extract] *)

Lemma pretty_N_go_no_slash (x : N) (s : string) :
  (∀ s', s ≠ String "/" s') → s ≠ EmptyString →
  (∀ s', pretty_N_go x s ≠ String "/" s') ∧ pretty_N_go x s ≠ EmptyString.
Proof.
  revert s. induction (N.lt_wf_0 x) as [x _ IH]; intros s Hs Hne.
  assert (x = 0 ∨ 0 < x)%N as [->|Hx] by lia.
  - by rewrite pretty_N_go_0.
  - rewrite pretty_N_go_step by done. apply IH; [by apply N.div_lt| |done].
    intros s'. unfold pretty_N_char. by repeat case_match.
Qed.

Lemma pretty_nat_no_slash (i : nat) :
  (∀ s', pretty i ≠ String "/" s') ∧ pretty i ≠ EmptyString.
Proof.
  unfold pretty, pretty_nat, pretty, pretty_N.
  destruct (decide (N.of_nat i = 0%N)) as [_|Hi]; [done|].
  rewrite pretty_N_go_step by lia.
  apply pretty_N_go_no_slash; [|done].
  intros s'. unfold pretty_N_char. by repeat case_match.
Qed.

(** Joining a directory and the digits of [i] appends to the directory. *)
Lemma os_path_join_index (dir : string) :
  ∃ sep, (sep = EmptyString ∨ sep = "/")
         ∧ (∀ j : nat, os_path_join dir (pretty j) = dir +:+ sep +:+ pretty j).
Proof.
  exists (if negb (truthy dir)
             || String.eqb (str_drop (String.length dir - 1) dir) "/"
          then EmptyString else "/").
  split; [by destruct (_ || _); auto|].
  intros j. unfold os_path_join.
  destruct (pretty_nat_no_slash j) as [Hj _].
  destruct (pretty j) as [|c s] eqn:E; [by destruct (_ || _)|].
  destruct (Ascii.eqb_spec c "/") as [->|Hc]; [by destruct (Hj s)|].
  destruct (_ || _).
  - destruct c as [[] [] [] [] [] [] [] []]; done.
  - destruct c as [[] [] [] [] [] [] [] []]; done.
Qed.

(** X16. The directory that [cli_extract] gives to [export]: with a single
    file argument other than ['-'], it is the export directory itself; a
    ['-'] among the arguments counts as several files, however many lines
    the standard input has; with several files and a non-empty export
    directory, it is
    the export directory joined with the index of the file, so two files of
    different indices never share a directory and none is exported into the
    export directory itself. *)
Theorem extract_out_directories (args : ExtractArgs) :
  (∀ f i, extract_file args = [f] → f ≠ "-" →
          extract_out args i = extract_export_dir args)
  ∧ ("-" ∈ extract_file args → extract_multiple args = true)
  ∧ (∀ dir i j, extract_export_dir args = Some dir → dir ≠ EmptyString →
       extract_multiple args = true →
       extract_out args i = Some (os_path_join dir (pretty i))
       ∧ extract_out args i ≠ Some dir
       ∧ (i ≠ j → extract_out args i ≠ extract_out args j)).
Proof.
  split.
  - intros f i Hf Hne. unfold extract_out, extract_multiple. rewrite Hf.
    cbn [length Nat.ltb Nat.leb orb].
    rewrite bool_decide_eq_false_2.
    2:{ intros H. apply list_elem_of_singleton in H. done. }
    destruct (extract_export_dir args); [|done]. by rewrite andb_false_r.
  - split.
    { intros Hdash. unfold extract_multiple.
      rewrite bool_decide_eq_true_2 by done. by rewrite orb_true_r. }
    intros dir i j Hdir Hne Hmult. unfold extract_out.
    rewrite Hdir, Hmult. destruct dir as [|c dir]; [done|]. cbn [truthy andb].
    destruct (os_path_join_index (String c dir)) as (sep & Hsep & Hjoin).
    rewrite !Hjoin. split; [done|]. split.
    + intros E%(inj Some). destruct (pretty_nat_no_slash i) as [_ Hi].
      apply (str_app_fresh (String c dir) (sep +:+ pretty i)); [|done].
      destruct Hsep as [-> | ->]; [by rewrite str_app_nil|].
      change ("/" +:+ pretty i) with (String "/" (pretty i)). done.
    + intros Hij E%(inj Some). apply Hij.
      apply (inj (String.append (String c dir))) in E.
      apply (inj (String.append sep)) in E. by apply (inj pretty).
Qed.

Section ExtractProperties.
Context {Archive Key : Type} {icns_api : IcnsFileAPI Archive Key}.
Variable makedirs : string → M unit.
Variable export : Archive → option string → string → bool → bool → bool → M unit.

Lemma ignores_stdin_bind {A B} (m : M A) (k : A → M B) :
  ignores_stdin m → (∀ a, ignores_stdin (k a)) → ignores_stdin (bind m k).
Proof.
  intros Hm Hk w s. unfold bind. rewrite Hm.
  destruct (m w) as [[a|e] w1]; cbn [fst snd]; [apply Hk|done].
Qed.

Lemma ignores_stdin_ret {A} (a : A) : ignores_stdin (ret a).
Proof. by intros w s. Qed.

Lemma ignores_stdin_IcnsFile_open file : ignores_stdin (IcnsFile_open file).
Proof.
  intros w s. unfold IcnsFile_open, bind, read_file, lift. cbn [files set_stdin].
  by destruct (files w !! file).
Qed.

Lemma extract_body_one (args : ExtractArgs) (i : nat) (fname : string) w :
  extract_body makedirs export args i fname w
  = bind (extract_one makedirs export args i fname) (λ _, ret (S i)) w.
Proof.
  unfold extract_body, extract_one, extract_out.
  destruct (extract_export_dir args) as [dir|]; cbn [truthy_opt default].
  - destruct (truthy dir && extract_multiple args); cbn [default];
      unfold bind, ret.
    + destruct (makedirs _ w) as [[[]|e] w1]; [|done].
      destruct (IcnsFile_open fname w1) as [[icns|e] w2]; [|done].
      by destruct (export icns _ _ _ _ _ w2) as [[[]|e] w3].
    + destruct (IcnsFile_open fname w) as [[icns|e] w2]; [|done].
      by destruct (export icns _ _ _ _ _ w2) as [[[]|e] w3].
  - cbn [andb]. unfold bind, ret.
    destruct (IcnsFile_open fname w) as [[icns|e] w2]; [|done].
    by destruct (export icns _ _ _ _ _ w2) as [[[]|e] w3].
Qed.

(** The loop with the counter of [enumerate] is the loop over the list of
    the indexed files. *)
Lemma extract_loop_enumerate (args : ExtractArgs) (ys : list string)
    (n : nat) w :
  let r := foldM (extract_body makedirs export args) ys n w in
  let r' := foldM (λ _ p, extract_one makedirs export args p.1 p.2)
                  (zip (seq n (length ys)) ys) tt w in
  void r.1 = r'.1 ∧ r.2 = r'.2.
Proof.
  revert n w. induction ys as [|y ys IH]; intros n w; [done|].
  cbv zeta. cbn [foldM length seq zip zip_with fst snd].
  unfold bind at 1 3. rewrite extract_body_one.
  unfold bind, ret.
  destruct (extract_one makedirs export args n y w) as [[[]|e] w1];
    [|done].
  apply IH.
Qed.

(** X17. When [makedirs] and [export] leave the standard input alone,
    [cli_extract] does what a loop over [enumerate] of the files that
    [enum_with_stdin] yields does: the file of index [i] (from 0, lines
    read from the standard input counted like arguments) is opened and
    exported into the directory of index [i], made first when the
    directories are numbered; the first exception ends the command. *)
Theorem cli_extract_enumerates (args : ExtractArgs) (w : World) :
  (∀ p, ignores_stdin (makedirs p)) →
  (∀ icns out ext r c k, ignores_stdin (export icns out ext r c k)) →
  let ys := expected_yield (extract_file args) (stdin w) in
  let run := foldM (λ _ p, extract_one makedirs export args p.1 p.2)
                   (enumerate ys) tt w in
  (cli_extract makedirs export args w).1 = run.1
  ∧ same_but_stdin (cli_extract makedirs export args w).2 run.2.
Proof.
  intros Hmk Hex ys run.
  assert (stdin_oblivious (extract_body makedirs export args)) as Hb.
  { intros i y w0 s. unfold extract_body.
    apply ignores_stdin_bind.
    - destruct (_ && _); [|apply ignores_stdin_ret].
      apply ignores_stdin_bind; [apply Hmk|intros; apply ignores_stdin_ret].
    - intros out. apply ignores_stdin_bind;
        [apply ignores_stdin_IcnsFile_open|].
      intros icns. apply ignores_stdin_bind; [apply Hex|].
      intros; apply ignores_stdin_ret. }
  destruct (enum_eager (extract_body makedirs export args)
              (extract_file args) 0%nat w Hb) as (w' & E & Hsame & _).
  fold ys in E, Hsame.
  destruct (extract_loop_enumerate args ys 0 w) as [R1 R2].
  cbv zeta in R1, R2. fold (enumerate ys) in R1, R2. fold run in R1, R2.
  unfold cli_extract, bind. rewrite E.
  rewrite R2 in Hsame. rewrite <- R1.
  destruct (foldM (extract_body makedirs export args) ys 0%nat w).1;
    cbn [fst snd void]; done.
Qed.

End ExtractProperties.

(** ** Two edges of [cli_compose] and [cli_update] *)

Lemma rfind_trailing_sep (dir : string) :
  dir = EmptyString ∨ (∃ d, dir = d +:+ "/") →
  rfind "/" dir = Z.of_nat (String.length dir) - 1.
Proof.
  intros [->|[d ->]]; [done|].
  unfold rfind. rewrite rfind_from_app, str_length_app. cbn. lia.
Qed.

(** X18. A target that is empty or ends with ['/'] names no file: the
    destination of [cli_compose] is then the hidden file ['.icns'] of that
    directory, which has no extension for [os.path.splitext], so computing
    the destination again appends ['.icns'] again. *)
Theorem compose_dest_directory (dir : string) :
  dir = EmptyString ∨ (∃ d, dir = d +:+ "/") →
  compose_dest dir = dir +:+ ".icns"
  ∧ (splitext (dir +:+ ".icns")).2 = EmptyString
  ∧ compose_dest (compose_dest dir) = dir +:+ ".icns.icns".
Proof.
  intros Hdir. pose proof (rfind_trailing_sep dir Hdir) as Hsep.
  assert (splitext dir = (dir, EmptyString)) as E1.
  { unfold splitext. pose proof (rfind_range "." dir).
    assert ((rfind "." dir >? rfind "/" dir) = false) as ->
      by (rewrite Z.gtb_ltb; apply Z.ltb_ge; lia).
    done. }
  assert (splitext (dir +:+ ".icns") = (dir +:+ ".icns", EmptyString)) as E2.
  { assert (rfind "/" (dir +:+ ".icns") = Z.of_nat (String.length dir) - 1)
      as Hs.
    { unfold rfind. rewrite rfind_from_app. fold (rfind "/" dir).
      by rewrite Hsep. }
    assert (rfind "." (dir +:+ ".icns") = Z.of_nat (String.length dir))
      as Hd.
    { unfold rfind. rewrite rfind_from_app. cbn. lia. }
    unfold splitext. rewrite Hs, Hd.
    replace (Z.to_nat (Z.of_nat (String.length dir)
                       - (Z.of_nat (String.length dir) - 1 + 1)))
      with 0%nat by lia.
    cbn [str_take has_non_dot]. by rewrite andb_false_r. }
  assert (compose_dest dir = dir +:+ ".icns") as E3
    by (unfold compose_dest; by rewrite E1).
  split; [done|]. split; [by rewrite E2|].
  rewrite E3. unfold compose_dest. rewrite E2. cbn [snd truthy negb].
  by rewrite str_app_assoc.
Qed.

Section UpdateNoAction.
Context {Archive Key : Type} {icns_api : IcnsFileAPI Archive Key}.

(** X19. With an input archive that parses and neither [-rm] nor [-set],
    [cli_update] writes exactly when [--output] is given and not empty: it
    then writes the archive as read, with its own lookup-table flag, to the
    output path; without [--output], or with an empty one, it changes
    nothing. *)
Theorem cli_update_no_action (args : UpdateArgs) (w : World)
    (d : list byte) (icns : Archive) :
  files w !! update_file args = Some d →
  IcnsFile_parse d = Ok icns →
  list_or_nil (update_rm args) = [] →
  list_or_nil (update_set args) = [] →
  cli_update args w
  = match update_output args with
    | Some (String c out) =>
        (Ok tt,
         mkWorld (<[String c out := to_bytes icns (has_toc icns)]> (files w))
                 (stdin w) (stderr w) (opened w ++ [String c out]))
    | _ => (Ok tt, w)
    end.
Proof.
  intros Hd Hparse Hrm Hset. rewrite (cli_update_cases args w).
  unfold update_locals, IcnsFile_open, bind at 1 2, read_file, lift.
  rewrite Hd, Hparse, Hrm, Hset. cbn [foldM]. unfold bind, ret.
  cbn [fst snd orb]. by destruct (update_output args) as [[|c out]|].
Qed.

End UpdateNoAction.

(** * The further properties at work *)

Example os_path_join_plain : os_path_join "out" (pretty 12%nat) = "out/12".
Proof. vm_compute. reflexivity. Qed.

Example os_path_join_slash : os_path_join "out/" (pretty 0%nat) = "out/0".
Proof. vm_compute. reflexivity. Qed.

Example os_path_join_absolute : os_path_join "out" "/tmp" = "/tmp".
Proof. reflexivity. Qed.

Example compose_dest_hidden :
  compose_dest "out/" = "out/.icns"
  ∧ (splitext (compose_dest "out/")).2 = EmptyString
  ∧ compose_dest (compose_dest "out/") = "out/.icns.icns".
Proof. repeat split; reflexivity. Qed.

Example cli_verify_sample :
  cli_verify (report_api := Fixture.reports) (mkVerifyArgs ["-"] false)
    Fixture.console
  = (Ok tt,
     mkConsole (set_stdin [] (world Fixture.console))
       ["File: a.icns"; "OK"; "File: e.icns"; "  Empty file"]).
Proof. vm_compute. reflexivity. Qed.

Example cli_verify_quiet_sample :
  (cli_verify (report_api := Fixture.reports) (mkVerifyArgs ["-"] true)
     Fixture.console).2
  = mkConsole (set_stdin [] (world Fixture.console))
      ["File: e.icns"; "  Empty file"].
Proof. vm_compute. reflexivity. Qed.

Example cli_verify_missing_sample :
  cli_verify (report_api := Fixture.reports)
    (mkVerifyArgs ["a.icns"; "none.icns"; "e.icns"] false) Fixture.console
  = (Raise (FileNotFoundError "none.icns"),
     mkConsole (world Fixture.console)
       ["File: a.icns"; "OK"; "File: none.icns"]).
Proof. vm_compute. reflexivity. Qed.

Example cli_extract_sample :
  cli_extract (icns_api := Sample.icns) Fixture.makedirs Fixture.export
    (mkExtractArgs ["e.icns"; "-"] (Some "out") false false false false)
    (world Fixture.console)
  = (Ok tt,
     mkWorld (files (world Fixture.console)) [] ["out/0"; "out/1"; "out/2"]
             []).
Proof. vm_compute. reflexivity. Qed.

Lemma enum_with_stdin_eager_witness :
  let body := λ (a : list string) (y : string), ret (a ++ [y]) in
  stdin_oblivious body
  ∧ (enum_with_stdin ["x"; "-"] body [] Sample.world).1
    = (foldM body (expected_yield ["x"; "-"] (stdin Sample.world)) []
         Sample.world).1.
Proof.
  intros body.
  assert (stdin_oblivious body) as H1 by (intros a y w s; reflexivity).
  split; [exact H1|].
  exact (proj1 (enum_with_stdin_eager body ["x"; "-"] [] Sample.world H1)).
Defined.

Lemma enum_with_stdin_no_dash_witness :
  let body := λ (a : list string) (y : string), ret (a ++ [y]) in
  ("-" ∉ ["x"; "y"])
  ∧ enum_with_stdin ["x"; "y"] body [] Sample.world
    = foldM body ["x"; "y"] [] Sample.world.
Proof.
  intros body.
  assert ("-" ∉ ["x"; "y"]) as H1
    by (apply (bool_decide_eq_false_1 _); reflexivity).
  split; [exact H1|].
  exact (enum_with_stdin_no_dash body ["x"; "y"] [] Sample.world H1).
Defined.

Lemma proper_name_icon : proper_name "out/icon".
Proof.
  exists "out/", "i"%char, "con".
  split; [reflexivity|]. split; [discriminate|].
  split; [discriminate|reflexivity].
Defined.

Lemma proper_name_b_png : proper_name "b.png".
Proof.
  exists EmptyString, "b"%char, ".png".
  split; [reflexivity|]. split; [discriminate|].
  split; [discriminate|reflexivity].
Defined.

Lemma compose_dest_extension_witness :
  proper_name "out/icon"
  ∧ splitext (compose_dest "out/icon") = ("out/icon", ".icns")
  ∧ compose_dest (compose_dest "out/icon") = compose_dest "out/icon".
Proof.
  split; [exact proper_name_icon|].
  destruct (compose_dest_extension "out/icon" proper_name_icon)
    as (_ & H2 & H3).
  split; [exact (H2 eq_refl)|exact H3].
Defined.

Lemma cli_convert_keyword_keeps_source_witness :
  let args := mkConvertArgs false "rgb" "b.png" None in
  (convert_target args ∈ ["png"; "argb"; "rgb"])
  ∧ files (cli_convert (image_api := Sample.image) args Sample.world).2
      !! "b.png"
    = files Sample.world !! "b.png".
Proof.
  intros args.
  assert (convert_target args ∈ ["png"; "argb"; "rgb"]) as H1
    by (apply (bool_decide_eq_true_1 _); reflexivity).
  split; [exact H1|].
  exact (cli_convert_keyword_keeps_source (image_api := Sample.image)
           args Sample.world H1).
Defined.

Lemma cli_convert_keyword_extension_witness :
  let args := mkConvertArgs false "argb" "b.png" None in
  (convert_target args ∈ ["png"; "argb"; "rgb"])
  ∧ proper_name (convert_source args)
  ∧ convert_dest args = "b.png.argb"
  ∧ splitext (convert_dest args) = ("b.png", ".argb").
Proof.
  intros args.
  assert (convert_target args ∈ ["png"; "argb"; "rgb"]) as H1
    by (apply (bool_decide_eq_true_1 _); reflexivity).
  split; [exact H1|]. split; [exact proper_name_b_png|].
  exact (cli_convert_keyword_extension args H1 proper_name_b_png).
Defined.

Lemma cli_convert_single_file_witness :
  let args := mkConvertArgs false "png" "b.png" None in
  ((convert_load (image_api := Sample.image) args Sample.world).1
   = Ok Sample.icon128)
  ∧ ((splitext (convert_dest args)).2 = ".png"
     ∨ (splitext (convert_dest args)).2 = ".argb")
  ∧ cli_convert (image_api := Sample.image) args Sample.world
    = (Ok tt,
       mkWorld (<["b.png.png" := []]> (files Sample.world))
               (stdin Sample.world) [] ["b.png.png"]).
Proof.
  intros args.
  assert ((convert_load (image_api := Sample.image) args Sample.world).1
          = Ok Sample.icon128) as H1 by reflexivity.
  assert ((splitext (convert_dest args)).2 = ".png"
          ∨ (splitext (convert_dest args)).2 = ".argb") as H2
    by (left; reflexivity).
  split; [exact H1|]. split; [exact H2|].
  exact (cli_convert_single_file (image_api := Sample.image) args
           Sample.world Sample.icon128 H1 H2).
Defined.

Lemma cli_convert_raw_irrelevant_witness :
  let args := mkConvertArgs false "out.png" "b.png" None in
  ((splitext (convert_dest args)).2 ≠ ".rgb")
  ∧ cli_convert (image_api := Sample.image) (with_raw true args) Sample.world
    = cli_convert (image_api := Sample.image) args Sample.world.
Proof.
  intros args.
  assert ((splitext (convert_dest args)).2 ≠ ".rgb") as H1 by discriminate.
  split; [exact H1|].
  exact (cli_convert_raw_irrelevant (image_api := Sample.image) args true
           Sample.world (or_introl H1)).
Defined.

Lemma cli_update_output_keeps_input_witness :
  let args := mkUpdateArgs "a.icns" (Some "out.icns") None None in
  update_output args = Some "out.icns"
  ∧ "out.icns" ≠ EmptyString
  ∧ "out.icns" ≠ update_file args
  ∧ files (cli_update (icns_api := Sample.icns) args Sample.world).2
      !! "a.icns"
    = files Sample.world !! "a.icns".
Proof.
  intros args.
  assert (update_output args = Some "out.icns") as H1 by reflexivity.
  assert ("out.icns" ≠ EmptyString) as H2 by discriminate.
  assert ("out.icns" ≠ update_file args) as H3 by discriminate.
  split; [exact H1|]. split; [exact H2|]. split; [exact H3|].
  exact (cli_update_output_keeps_input (icns_api := Sample.icns) args
           Sample.world "out.icns" H1 H2 H3).
Defined.

Lemma cli_update_set_writes_witness :
  let args := mkUpdateArgs "a.icns" None None (Some ["ic08=b.png"]) in
  list_or_nil (update_set args) ≠ []
  ∧ (cli_update (icns_api := Sample.icns) args Sample.world).1 = Ok tt
  ∧ ∃ icns,
      cli_update (icns_api := Sample.icns) args Sample.world
      = (Ok tt,
         mkWorld (<["a.icns"
                    := Sample.serialize icns (SpecIcns.has_toc icns)]>
                    (files Sample.world))
                 (stdin Sample.world) [] ["a.icns"]).
Proof.
  intros args.
  assert (list_or_nil (update_set args) ≠ []) as H1 by discriminate.
  assert ((cli_update (icns_api := Sample.icns) args Sample.world).1 = Ok tt)
    as H2 by (vm_compute; reflexivity).
  split; [exact H1|]. split; [exact H2|].
  exact (cli_update_set_writes (icns_api := Sample.icns) args Sample.world
           H1 H2).
Defined.

Lemma cli_update_first_set_error_witness :
  let args := mkUpdateArgs "a.icns" None None (Some ["k=b.png=x"]) in
  files Sample.world !! update_file args = Some [x01]
  ∧ IcnsFile_parse (IcnsFileAPI := Sample.icns) [x01]
    = Ok (SpecIcns.mkArchive [("ic07", [x01])] true)
  ∧ list_or_nil (update_rm args) = []
  ∧ list_or_nil (update_set args) = ["k=b.png=x"]
  ∧ cli_update (icns_api := Sample.icns) args Sample.world
    = (Raise ValueError, Sample.world).
Proof.
  intros args.
  assert (files Sample.world !! update_file args = Some [x01]) as H1
    by reflexivity.
  assert (IcnsFile_parse (IcnsFileAPI := Sample.icns) [x01]
          = Ok (SpecIcns.mkArchive [("ic07", [x01])] true)) as H2
    by reflexivity.
  assert (list_or_nil (update_rm args) = []) as H3 by reflexivity.
  assert (list_or_nil (update_set args) = ["k=b.png=x"]) as H4
    by reflexivity.
  split; [exact H1|]. split; [exact H2|]. split; [exact H3|].
  split; [exact H4|].
  exact (proj1 (proj2 (cli_update_first_set_error (icns_api := Sample.icns)
                         args Sample.world [x01] _ "k=b.png=x" [] H1 H2 H3 H4))
           "k" "b.png" "x" eq_refl).
Defined.

Lemma fixture_files_sound :
  ∀ y, y ∈ expected_yield ["-"] (stdin (world Fixture.console)) →
       ∃ d, files (world Fixture.console) !! y = Some d
            ∧ (verify (IcnsReportAPI := Fixture.reports) y d).2 = None.
Proof.
  intros y Hy. cbn in Hy.
  apply elem_of_cons in Hy as [->|Hy]; [by exists [x01]|].
  apply elem_of_cons in Hy as [->|Hy]; [by exists []|].
  by apply elem_of_nil in Hy.
Defined.

Lemma cli_verify_report_witness :
  let args := mkVerifyArgs ["-"] true in
  (∀ y, y ∈ expected_yield (verify_file args) (stdin (world Fixture.console)) →
        ∃ d, files (world Fixture.console) !! y = Some d
             ∧ (verify (IcnsReportAPI := Fixture.reports) y d).2 = None)
  ∧ cli_verify (report_api := Fixture.reports) args Fixture.console
    = (Ok tt,
       mkConsole (set_stdin [] (world Fixture.console))
                 ["File: e.icns"; "  Empty file"]).
Proof.
  intros args. split; [exact fixture_files_sound|].
  exact (cli_verify_report (report_api := Fixture.reports) args
           Fixture.console fixture_files_sound).
Defined.

Lemma fixture_files_described :
  ∀ y, y ∈ expected_yield ["a.icns"] (stdin (world Fixture.console)) →
       ∃ d text, files (world Fixture.console) !! y = Some d
                 ∧ description (IcnsReportAPI := Fixture.reports) y d false 2
                   = Ok text.
Proof.
  intros y Hy. cbn in Hy.
  apply elem_of_cons in Hy as [->|Hy]; [by exists [x01], "entries of a.icns"|].
  by apply elem_of_nil in Hy.
Defined.

Lemma cli_print_report_witness :
  let args := mkPrintArgs ["a.icns"] false in
  (∀ y, y ∈ expected_yield (print_file args) (stdin (world Fixture.console)) →
        ∃ d text, files (world Fixture.console) !! y = Some d
                  ∧ description (IcnsReportAPI := Fixture.reports) y d
                      (print_verbose args) 2 = Ok text)
  ∧ cli_print (report_api := Fixture.reports) args Fixture.console
    = (Ok tt,
       mkConsole (world Fixture.console)
                 ["File: a.icns"; "entries of a.icns"]).
Proof.
  intros args. split; [exact fixture_files_described|].
  exact (cli_print_report (report_api := Fixture.reports) args
           Fixture.console fixture_files_described).
Defined.

Lemma extract_out_directories_witness :
  let args := mkExtractArgs ["a.icns"; "e.icns"] (Some "out") false false
                            false false in
  extract_export_dir args = Some "out"
  ∧ "out" ≠ EmptyString
  ∧ extract_multiple args = true
  ∧ (0 ≠ 1)%nat
  ∧ extract_out args 0 = Some "out/0"
  ∧ extract_out args 0 ≠ extract_out args 1.
Proof.
  intros args.
  assert (extract_export_dir args = Some "out") as H1 by reflexivity.
  assert ("out" ≠ EmptyString) as H2 by discriminate.
  assert (extract_multiple args = true) as H3 by reflexivity.
  assert (0 ≠ 1)%nat as H4 by discriminate.
  destruct (proj2 (proj2 (extract_out_directories args)) "out" 0%nat 1%nat
              H1 H2 H3) as (P1 & _ & P3).
  split; [exact H1|]. split; [exact H2|]. split; [exact H3|].
  split; [exact H4|]. split; [exact P1|exact (P3 H4)].
Defined.

Lemma cli_extract_enumerates_witness :
  let args := mkExtractArgs ["e.icns"; "-"] (Some "out") false false false
                            false in
  (∀ p, ignores_stdin (Fixture.makedirs p))
  ∧ (∀ icns out ext r c k, ignores_stdin (Fixture.export icns out ext r c k))
  ∧ (cli_extract (icns_api := Sample.icns) Fixture.makedirs Fixture.export
       args (world Fixture.console)).1
    = (foldM (λ _ p, extract_one (icns_api := Sample.icns) Fixture.makedirs
                       Fixture.export args p.1 p.2)
         (enumerate (expected_yield (extract_file args)
                       (stdin (world Fixture.console))))
         tt (world Fixture.console)).1.
Proof.
  intros args.
  assert (∀ p, ignores_stdin (Fixture.makedirs p)) as H1
    by (intros p w s; reflexivity).
  assert (∀ icns out ext r c k,
            ignores_stdin (Fixture.export icns out ext r c k)) as H2
    by (intros icns out ext r c k w s; reflexivity).
  split; [exact H1|]. split; [exact H2|].
  exact (proj1 (cli_extract_enumerates (icns_api := Sample.icns)
                  Fixture.makedirs Fixture.export args
                  (world Fixture.console) H1 H2)).
Defined.

Lemma compose_dest_directory_witness :
  ("out/" = EmptyString ∨ (∃ d, "out/" = d +:+ "/"))
  ∧ compose_dest "out/" = "out/.icns"
  ∧ (splitext "out/.icns").2 = EmptyString.
Proof.
  assert ("out/" = EmptyString ∨ (∃ d, "out/" = d +:+ "/")) as H1
    by (right; exists "out"; reflexivity).
  split; [exact H1|].
  destruct (compose_dest_directory "out/" H1) as (P1 & P2 & _).
  split; [exact P1|exact P2].
Defined.

Lemma cli_update_no_action_witness :
  let args := mkUpdateArgs "a.icns" (Some "copy.icns") None None in
  files Sample.world !! update_file args = Some [x01]
  ∧ IcnsFile_parse (IcnsFileAPI := Sample.icns) [x01]
    = Ok (SpecIcns.mkArchive [("ic07", [x01])] true)
  ∧ list_or_nil (update_rm args) = []
  ∧ list_or_nil (update_set args) = []
  ∧ cli_update (icns_api := Sample.icns) args Sample.world
    = (Ok tt,
       mkWorld (<["copy.icns" := [x01; x01]]> (files Sample.world))
               (stdin Sample.world) [] ["copy.icns"]).
Proof.
  intros args.
  assert (files Sample.world !! update_file args = Some [x01]) as H1
    by reflexivity.
  assert (IcnsFile_parse (IcnsFileAPI := Sample.icns) [x01]
          = Ok (SpecIcns.mkArchive [("ic07", [x01])] true)) as H2
    by reflexivity.
  assert (list_or_nil (update_rm args) = []) as H3 by reflexivity.
  assert (list_or_nil (update_set args) = []) as H4 by reflexivity.
  split; [exact H1|]. split; [exact H2|]. split; [exact H3|].
  split; [exact H4|].
  exact (cli_update_no_action (icns_api := Sample.icns) args Sample.world
           [x01] _ H1 H2 H3 H4).
Defined.
